(** * jubjub validators: a shallow embedding of [lib/validators.js]

    The validation library folds a list of field names over a changeset
    (persisted [data], pending [changes], accumulated [errors]).  Each
    validator either returns a changeset or aborts: by throwing a string
    on a pending change of the wrong type, or with the [TypeError] of an
    operator that cannot convert its operand.

    The file has five parts:
    - [JS]: the fragment of the JavaScript runtime the validators rely on
      (dynamically typed values, IEEE doubles, [typeof], the equality and
      relational operators, the conversions between numbers and strings,
      regular expressions with their [lastIndex]);
    - [Utils] and [Changeset]: the two collaborators the source imports
      from [./utils] and [./changeset];
    - [Validators]: the thirteen exported validators, one definition per
      source function;
    - the vocabulary in which the properties are stated;
    - the properties of the validators. *)

From Stdlib Require Import ZArith String Ascii List Bool Lia DecimalString.
From Stdlib Require Import Floats.SpecFloat.
From stdpp Require Import base option gmap strings list.

Local Open Scope string_scope.
Local Open Scope Z_scope.

(** ** The JavaScript runtime fragment *)

Module JS.

(** *** Numbers: IEEE 754 binary64 *)

Definition prec : Z := 53.
Definition emax : Z := 1024.

(** A JavaScript Number.  Values produced by the runtime satisfy
    [valid_binary prec emax]. *)
Definition number : Type := spec_float.

Definition NaN : number := S754_nan.

(** The double nearest to an integer (exact below [2^53]). *)
Definition of_Z (z : Z) : number := binary_normalize prec emax z 0 false.

(** The double nearest to the positive rational [a / b], ties to even.
    The quotient is computed with at least 64 significant bits and the
    position of the remainder with respect to one half is handed to the
    rounding of [SpecFloat]. *)
Definition round_ratio (neg : bool) (a b : positive) : number :=
  let t := Z.max 0 (64 + Z.log2 (Zpos b) - Z.log2 (Zpos a)) in
  let a' := Zpos a * 2 ^ t in
  let q := a' / Zpos b in
  let r := a' mod Zpos b in
  let l := if r =? 0 then loc_Exact else loc_Inexact (2 * r ?= Zpos b) in
  binary_round_aux prec emax neg q (- t) l.

(** The double nearest to [s * 10^p].  Magnitudes that are out of range
    whatever the digits are answered without building the power. *)
Definition of_decimal (neg : bool) (s : positive) (p : Z) : number :=
  let len := Z.of_nat (String.length (NilZero.string_of_uint (Pos.to_uint s))) in
  if 310 <=? p then S754_infinity neg
  else if p + len <? -330 then S754_zero neg
  else if 0 <=? p then round_ratio neg (s * Z.to_pos (10 ^ p)) 1
  else round_ratio neg s (Z.to_pos (10 ^ (- p))).

(** The numeric operators on two Numbers. *)
Definition num_eqb (x y : number) : bool := SFeqb x y.
Definition num_ltb (x y : number) : bool := SFltb x y.
Definition num_leb (x y : number) : bool := SFleb x y.


(** *** Number::toString(x) in radix 10 *)

Definition decimal (z : Z) : string := NilZero.string_of_uint (N.to_uint (Z.to_N z)).

Fixpoint zeros (n : nat) : string :=
  match n with
  | O => EmptyString
  | S n' => String "0" (zeros n')
  end.

(** [a / b < 10^n] *)
Definition below_pow10 (a b n : Z) : bool :=
  if 0 <=? n then a <? b * 10 ^ n else a * 10 ^ (- n) <? b.

Fixpoint magnitude (fuel : nat) (a b n : Z) : Z :=
  match fuel with
  | O => n
  | S fuel' => if below_pow10 a b n then n else magnitude fuel' a b (n + 1)
  end.

(** [floor (a / b * 10^j)] *)
Definition scaled_floor (a b j : Z) : Z :=
  if 0 <=? j then (a * 10 ^ j) / b else a / (b * 10 ^ (- j)).

(** The digit candidates with [k] digits on both sides of [a / b]: pairs
    [(s, n)] standing for [s * 10^(n - k)]. *)
Definition candidates (a b n0 k : Z) : (Z * Z) * (Z * Z) :=
  let lo := scaled_floor a b (k - n0) in
  let hi := if lo + 1 =? 10 ^ k then (10 ^ (k - 1), n0 + 1) else (lo + 1, n0) in
  ((lo, n0), hi).

Definition reads_back (x : number) (k : Z) (c : Z * Z) : bool :=
  let '(s, n) := c in
  (0 <? s) && num_eqb (of_decimal false (Z.to_pos s) (n - k)) x.

(** Which of the two candidates is closer to [a / b]; the lower one when
    [2 * a / b <= (2 * lo + 1) * 10^(n0 - k)]. *)
Definition lower_is_closer (a b n0 k lo : Z) : bool :=
  let j := n0 - k in
  if 0 <=? j then 2 * a <=? (2 * lo + 1) * 10 ^ j * b
  else 2 * a * 10 ^ (- j) <=? (2 * lo + 1) * b.

(** The shortest digit string [s] (with [k] digits) and the exponent [n]
    such that [s * 10^(n - k)] reads back as [x]. *)
Fixpoint shortest (fuel : nat) (x : number) (a b n0 k : Z) : Z * Z * Z :=
  let '(lo, hi) := candidates a b n0 k in
  match fuel with
  | O => (fst lo, snd lo, k)
  | S fuel' =>
      match reads_back x k lo, reads_back x k hi with
      | true, true =>
          if lower_is_closer a b n0 k (fst lo) then (fst lo, snd lo, k)
          else (fst hi, snd hi, k)
      | true, false => (fst lo, snd lo, k)
      | false, true => (fst hi, snd hi, k)
      | false, false => shortest fuel' x a b n0 (k + 1)
      end
  end.

Definition layout (digits : string) (k n : Z) : string :=
  if (k <=? n) && (n <=? 21) then digits ++ zeros (Z.to_nat (n - k))
  else if (0 <? n) && (n <=? 21) then
    substring 0 (Z.to_nat n) digits ++ "." ++
    substring (Z.to_nat n) (Z.to_nat (k - n)) digits
  else if (-6 <? n) && (n <=? 0) then "0." ++ zeros (Z.to_nat (- n)) ++ digits
  else
    let e := n - 1 in
    let sign := if 0 <=? e then "+" else "-" in
    let mant :=
      if k =? 1 then digits
      else substring 0 1 digits ++ "." ++ substring 1 (Z.to_nat (k - 1)) digits in
    mant ++ "e" ++ sign ++ decimal (Z.abs e).

Definition number_to_string (x : number) : string :=
  match x with
  | S754_nan => "NaN"
  | S754_zero _ => "0"
  | S754_infinity neg => if neg then "-Infinity" else "Infinity"
  | S754_finite neg m e =>
      let a := if 0 <=? e then Zpos m * 2 ^ e else Zpos m in
      let b := if 0 <=? e then 1 else 2 ^ (- e) in
      let n0 := magnitude 640 a b (-324) in
      let '(s, n, k) := shortest 17 (S754_finite false m e) a b n0 1 in
      (if neg then "-" else EmptyString) ++ layout (decimal s) k n
  end.

(** *** StringToNumber: the numeric value of a string *)

(** [WhiteSpace] and [LineTerminator] code units (those below 256), the
    class [\s] of regular expressions. *)
Definition is_space (c : ascii) : bool :=
  let n := Z.of_nat (nat_of_ascii c) in
  ((9 <=? n) && (n <=? 13)) || (n =? 32) || (n =? 160).

Fixpoint drop_spaces (l : list ascii) : list ascii :=
  match l with
  | c :: l' => if is_space c then drop_spaces l' else l
  | [] => []
  end.

Definition trim (l : list ascii) : list ascii :=
  rev (drop_spaces (rev (drop_spaces l))).

Definition digit_value (base : Z) (c : ascii) : option Z :=
  let n := Z.of_nat (nat_of_ascii c) in
  let v :=
    if (48 <=? n) && (n <=? 57) then n - 48
    else if (97 <=? n) && (n <=? 102) then n - 87
    else if (65 <=? n) && (n <=? 70) then n - 55
    else base in
  if v <? base then Some v else None.

(** The longest prefix of digits in [base], as (value, number of digits,
    rest). *)
Fixpoint digits_prefix (base : Z) (l : list ascii) (acc : Z) (count : Z)
  : Z * Z * list ascii :=
  match l with
  | c :: l' =>
      match digit_value base c with
      | Some v => digits_prefix base l' (acc * base + v) (count + 1)
      | None => (acc, count, l)
      end
  | [] => (acc, count, [])
  end.

(** [ExponentPart], absent or well formed; [None] when malformed. *)
Definition exponent_part (l : list ascii) : option Z :=
  match l with
  | [] => Some 0
  | c :: l' =>
      if (Ascii.eqb c "e" || Ascii.eqb c "E")%bool then
        let '(neg, l'') :=
          match l' with
          | "-"%char :: r => (true, r)
          | "+"%char :: r => (false, r)
          | _ => (false, l')
          end in
        match digits_prefix 10 l'' 0 0 with
        | (v, count, []) => if 0 <? count then Some (if neg then - v else v) else None
        | _ => None
        end
      else None
  end.

(** [StrUnsignedDecimalLiteral] without the [Infinity] case. *)
Definition unsigned_decimal (neg : bool) (l : list ascii) : number :=
  let '(ip, ic, r1) := digits_prefix 10 l 0 0 in
  let '(fp, fc, r2) :=
    match r1 with
    | "."%char :: r => digits_prefix 10 r ip 0
    | _ => (ip, 0, r1)
    end in
  if (ic + fc =? 0) then NaN
  else
    match exponent_part r2 with
    | None => NaN
    | Some e =>
        match fp with
        | Zpos s => of_decimal neg s (e - fc)
        | _ => S754_zero neg
        end
    end.

Definition radix_literal (base : Z) (l : list ascii) : number :=
  match digits_prefix base l 0 0 with
  | (v, count, []) => if 0 <? count then of_Z v else NaN
  | _ => NaN
  end.

Definition signed_decimal (l : list ascii) : number :=
  let '(neg, r) :=
    match l with
    | "-"%char :: r => (true, r)
    | "+"%char :: r => (false, r)
    | _ => (false, l)
    end in
  if String.eqb (string_of_list_ascii r) "Infinity" then S754_infinity neg
  else unsigned_decimal neg r.

Definition string_to_number (s : string) : number :=
  match trim (list_ascii_of_string s) with
  | [] => S754_zero false
  | "0"%char :: x :: r =>
      if (Ascii.eqb x "x" || Ascii.eqb x "X")%bool then radix_literal 16 r
      else if (Ascii.eqb x "o" || Ascii.eqb x "O")%bool then radix_literal 8 r
      else if (Ascii.eqb x "b" || Ascii.eqb x "B")%bool then radix_literal 2 r
      else signed_decimal ("0"%char :: x :: r)
  | l => signed_decimal l
  end.

(** *** Outcomes *)

(** What a call can throw: the validators throw strings, the runtime
    throws a [TypeError]. *)
Inductive exn : Type :=
  | Thrown (text : string)
  | TypeError.

Coercion Thrown : string >-> exn.

(** The outcome of a call: a returned value or an exception. *)
Inductive result (A : Type) : Type :=
  | Ok (a : A)
  | Throw (e : exn).
Arguments Ok {A} a.
Arguments Throw {A} e.

Definition bind {A B : Type} (r : result A) (k : A -> result B) : result B :=
  match r with
  | Ok a => k a
  | Throw e => Throw e
  end.

Notation "'let*' x ':=' r 'in' k" := (bind r (fun x => k))
  (at level 10, x name, r at level 100, k at level 200).

(** [list.reduce(f, init)] for a reducer that may throw. *)
Fixpoint reduce {A B : Type} (f : A -> B -> result A) (l : list B) (init : A)
  : result A :=
  match l with
  | [] => Ok init
  | x :: l' =>
      match f init x with
      | Ok a => reduce f l' a
      | Throw e => Throw e
      end
  end.

(** *** Values *)

(** Identity of an array or object: [===] on two of them compares it. *)
Definition ref : Type := N.

Set Warnings "-register-all".

(** The language values a changeset can hold: the data of a form or of a
    JSON document, and [undefined].  A string is a sequence of UTF-16
    code units, here those below 256, one [ascii] each.  An array has its
    items and the methods of [Array.prototype]; an object is a plain
    object with its own data properties, which shadow the methods it
    inherits from [Object.prototype]. *)
Inductive value : Type :=
  | VUndefined
  | VNull
  | VBool (b : bool)
  | VNum (n : number)
  | VStr (s : string)
  | VArr (r : ref) (items : list value)
  | VObj (r : ref) (props : list (string * value)).

Definition typeof (v : value) : string :=
  match v with
  | VUndefined => "undefined"
  | VNull => "object"
  | VBool _ => "boolean"
  | VNum _ => "number"
  | VStr _ => "string"
  | VArr _ _ => "object"
  | VObj _ _ => "object"
  end.

(** [Array.isArray] *)
Definition isArray (v : value) : bool :=
  match v with
  | VArr _ _ => true
  | _ => false
  end.

(** The string a value of type string is; the empty string for the
    other values, on which it is not called. *)
Definition string_of (v : value) : string :=
  match v with
  | VStr s => s
  | _ => EmptyString
  end.

(** Truthiness of a string: only the empty one is falsy. *)
Definition truthy_string (s : string) : bool := negb (String.eqb s EmptyString).

Fixpoint join (sep : string) (l : list string) : string :=
  match l with
  | [] => EmptyString
  | [x] => x
  | x :: l' => x ++ sep ++ join sep l'
  end.

(** Whether an object has an own property of that name. *)
Fixpoint has_own (k : string) (props : list (string * value)) : bool :=
  match props with
  | [] => false
  | (k', _) :: props' => String.eqb k k' || has_own k props'
  end.

(** ToString.  An array converts through [join], whose elements [null]
    and [undefined] contribute the empty string.  A plain object converts
    through the [toString] it inherits, unless a property of its own
    shadows it: the values of the model are data, none is callable, so
    neither [toString] nor [valueOf] then yields a primitive and the
    conversion throws a [TypeError]. *)
Fixpoint to_string (v : value) : result string :=
  match v with
  | VUndefined => Ok "undefined"
  | VNull => Ok "null"
  | VBool b => Ok (if b then "true" else "false")
  | VNum n => Ok (number_to_string n)
  | VStr s => Ok s
  | VArr _ items =>
      let* elements :=
        (fix elements (l : list value) : result (list string) :=
           match l with
           | [] => Ok []
           | x :: l' =>
               let* s :=
                 match x with
                 | VUndefined | VNull => Ok EmptyString
                 | _ => to_string x
                 end in
               let* r := elements l' in
               Ok (s :: r)
           end) items in
      Ok (join "," elements)
  | VObj _ props =>
      if has_own "toString" props then Throw TypeError
      else Ok "[object Object]"
  end.

(** ToPrimitive, with the hint of the relational and equality operators.
    An array has no primitive [valueOf] and converts to its string; so
    does a plain object, with or without a [valueOf] of its own. *)
Definition to_primitive (v : value) : result value :=
  match v with
  | VArr _ _ | VObj _ _ => let* s := to_string v in Ok (VStr s)
  | _ => Ok v
  end.

(** ToNumber of a primitive value. *)
Definition primitive_to_number (p : value) : number :=
  match p with
  | VUndefined => NaN
  | VNull => S754_zero false
  | VBool b => if b then of_Z 1 else of_Z 0
  | VNum n => n
  | VStr s => string_to_number s
  | _ => NaN
  end.

(** *** Equality and relational operators *)

(** [x === y] *)
Definition strict_equal (x y : value) : bool :=
  match x, y with
  | VUndefined, VUndefined => true
  | VNull, VNull => true
  | VBool a, VBool b => Bool.eqb a b
  | VNum a, VNum b => num_eqb a b
  | VStr a, VStr b => String.eqb a b
  | VArr r _, VArr r' _ => N.eqb r r'
  | VObj r _, VObj r' _ => N.eqb r r'
  | _, _ => false
  end.

Definition is_object (v : value) : bool :=
  match v with
  | VArr _ _ | VObj _ _ => true
  | _ => false
  end.

Definition is_nullish (v : value) : bool :=
  match v with
  | VUndefined | VNull => true
  | _ => false
  end.

(** The comparisons of two primitive values: two strings by their code
    units, anything else as numbers; a comparison with NaN is false. *)
Definition primitive_eqb (px py : value) : bool :=
  match px, py with
  | VStr a, VStr b => String.eqb a b
  | _, _ => num_eqb (primitive_to_number px) (primitive_to_number py)
  end.

Definition primitive_ltb (px py : value) : bool :=
  match px, py with
  | VStr a, VStr b => String.ltb a b
  | _, _ => num_ltb (primitive_to_number px) (primitive_to_number py)
  end.

Definition primitive_leb (px py : value) : bool :=
  match px, py with
  | VStr a, VStr b => negb (String.ltb b a)
  | _, _ => num_leb (primitive_to_number px) (primitive_to_number py)
  end.

(** [x == y]: two objects by identity, [null] and [undefined] only with
    each other, anything else after conversion to primitives. *)
Definition loose_equal (x y : value) : result bool :=
  if is_object x && is_object y then Ok (strict_equal x y)
  else if is_nullish x || is_nullish y then Ok (is_nullish x && is_nullish y)
  else
    let* px := to_primitive x in
    let* py := to_primitive y in
    Ok (primitive_eqb px py).

(** [x < y] *)
Definition less_than (x y : value) : result bool :=
  let* px := to_primitive x in
  let* py := to_primitive y in
  Ok (primitive_ltb px py).

(** [x > y] is [y < x], the operands converted from left to right. *)
Definition greater_than (x y : value) : result bool :=
  let* px := to_primitive x in
  let* py := to_primitive y in
  Ok (primitive_ltb py px).

(** [x <= y] *)
Definition less_equal (x y : value) : result bool :=
  let* px := to_primitive x in
  let* py := to_primitive y in
  Ok (primitive_leb px py).

(** [x >= y] is [y <= x], the operands converted from left to right. *)
Definition greater_equal (x y : value) : result bool :=
  let* px := to_primitive x in
  let* py := to_primitive y in
  Ok (primitive_leb py px).

(** [value.length] of a string (code units) or an array (items). *)
Definition length_of (v : value) : number :=
  match v with
  | VStr s => of_Z (Z.of_nat (String.length s))
  | VArr _ items => of_Z (Z.of_nat (List.length items))
  | _ => NaN
  end.

(** ToBoolean *)
Definition truthy (v : value) : bool :=
  match v with
  | VUndefined | VNull => false
  | VBool b => b
  | VNum n => negb (num_eqb n (of_Z 0)) && num_eqb n n
  | VStr s => truthy_string s
  | VArr _ _ | VObj _ _ => true
  end.

(** [a || b] on an optional string and a string. *)
Definition or_else (a : option string) (b : string) : string :=
  match a with
  | Some s => if truthy_string s then s else b
  | None => b
  end.

(** [/^\s*$/.test(s)] *)
Definition blank (s : string) : bool := forallb is_space (list_ascii_of_string s).

(** *** Regular expressions *)

(** A regular expression object without its state: the source text, the
    two flags that bear on [String.prototype.match], and the matcher.
    [exec i s] is the attempt of the matcher on [s] from the index [i]
    (a match that starts at [i] when the expression is sticky, the first
    one that starts at [i] or after it otherwise): the index at which the
    match ends, when there is one. *)
Record pattern : Type := {
  source : string;
  global : bool;
  sticky : bool;
  exec : nat -> string -> option nat
}.

(** A regular expression object as a call finds it: the object and the
    value of its mutable property [lastIndex]. *)
Record regexp : Type := { pat : pattern; lastIndex : nat }.

(** [s.match(r)] for a string [s]: whether the result is an array of
    matches rather than [null], and the [lastIndex] the call leaves.  A
    global expression is rewound, matched from the start, and left
    rewound once the matches are exhausted.  A sticky expression is
    matched at its [lastIndex], which moves to the end of the match, or
    back to zero when there is none.  Any other expression is matched
    from the start and its [lastIndex] is not written. *)
Definition string_match (p : pattern) (lastIndex : nat) (s : string)
  : bool * nat :=
  if global p then
    match exec p 0%nat s with
    | Some _ => (true, 0%nat)
    | None => (false, 0%nat)
    end
  else if sticky p then
    if Nat.ltb (String.length s) lastIndex then (false, 0%nat)
    else
      match exec p lastIndex s with
      | Some e => (true, e)
      | None => (false, 0%nat)
      end
  else
    match exec p 0%nat s with
    | Some _ => (true, lastIndex)
    | None => (false, lastIndex)
    end.

Definition quote : string := String (ascii_of_nat 34) EmptyString.

Arguments number_to_string : simpl never.
Arguments string_to_number : simpl never.
Arguments of_Z : simpl never.
Arguments length_of : simpl never.
Arguments to_string : simpl never.
Arguments to_primitive : simpl nomatch.
Arguments less_than : simpl never.
Arguments greater_than : simpl never.
Arguments less_equal : simpl never.
Arguments greater_equal : simpl never.
Arguments loose_equal : simpl never.

End JS.

Import JS.

(** ** The collaborators of the validators *)

Module Utils.

(** Modelled from the spec: [pipe] of [./utils], a "generic left-to-right
    function-composition utility"; the source applies it to two
    functions. *)
Definition pipe {A B C : Type} (f : A -> B) (g : B -> C) : A -> C :=
  fun x => g (f x).

(** Modelled from the spec: [pipe] of [./utils] on two functions that may
    throw, as in [pipe(required(...), length(...))(changeset)]: the second
    receives what the first returns, and a throw of either aborts. *)
Definition pipeline {A B C : Type} (f : A -> result B) (g : B -> result C)
  : A -> result C :=
  fun x =>
    match f x with
    | Ok y => g y
    | Throw e => Throw e
    end.

Fixpoint assoc (k : string) (l : list (string * value)) : option value :=
  match l with
  | [] => None
  | (k', v) :: l' => if String.eqb k k' then Some v else assoc k l'
  end.

(** Modelled from the spec: [isEqual] of [./utils], "deep equality".
    Arrays are compared item by item, objects property by property
    whatever the order of the keys, anything else with [===]. *)
Fixpoint isEqual (x y : value) {struct x} : bool :=
  match x, y with
  | VArr _ xs, VArr _ ys =>
      (fix items (xs ys : list value) {struct xs} : bool :=
         match xs, ys with
         | [], [] => true
         | a :: xs', b :: ys' => isEqual a b && items xs' ys'
         | _, _ => false
         end) xs ys
  | VObj _ ps, VObj _ qs =>
      (Nat.eqb (List.length ps) (List.length qs)) &&
      (fix props (ps : list (string * value)) {struct ps} : bool :=
         match ps with
         | [] => true
         | (k, a) :: ps' =>
             match assoc k qs with
             | Some b => isEqual a b && props ps'
             | None => false
             end
         end) ps
  | _, _ => strict_equal x y
  end.

End Utils.

Module Changeset.

(** An attribute of an error descriptor besides its message and tag. *)
Inductive attr : Type :=
  | AValue (v : value)
  | AValues (vs : list value)
  | APattern (p : pattern).

(** An error descriptor: [{ message, validation, ...extra }]. *)
Record error : Type := {
  message : string;
  validation : string;
  extra : list (string * attr)
}.

(** Modelled from the spec: the changeset of [./changeset], "an immutable
    record holding data (previously persisted values), changes (proposed
    new values), and errors (field -> list of error descriptors)". *)
Record t : Type := {
  data : gmap string value;
  changes : gmap string value;
  errors : gmap string (list error)
}.

(** Modelled from the spec: the lookup behind the two read accessors of
    [./changeset], which answer "(found: bool, value)".  A missing
    property reads as [undefined]; a field that is missing or holds
    [null] or [undefined] (the test [value != null]) is not found. *)
Definition read (field : string) (m : gmap string value) : bool * value :=
  match m !! field with
  | Some v => (negb (is_nullish v), v)
  | None => (false, VUndefined)
  end.

(** Modelled from the spec: [getChange(field, changeset) -> (found, value)]
    of [./changeset], "read-pending-change".  A change that [required] has
    rewritten to [null] is "an explicit absence": the validators that
    "only activate on a pending change" pass over it. *)
Definition getChange (field : string) (changeset : t) : bool * value :=
  read field (changes changeset).

(** Modelled from the spec: [getField(field, changeset) -> (found, value)]
    of [./changeset], which "reads persisted data". *)
Definition getField (field : string) (changeset : t) : bool * value :=
  read field (data changeset).

(** Modelled from the spec: [putChange(field, value)] of [./changeset],
    "write-change"; "every write returns a new changeset value". *)
Definition putChange (field : string) (v : value) (changeset : t) : t :=
  {| data := data changeset;
     changes := <[field := v]> (changes changeset);
     errors := errors changeset |}.

(** Modelled from the spec: the errors accumulated on a field, "a field
    absent from the map is presumed valid". *)
Definition errorsOf (field : string) (changeset : t) : list error :=
  default [] (errors changeset !! field).

(** Modelled from the spec: [putError(field, errorDescriptor)] of
    [./changeset], "append-error": the descriptor goes at the end of the
    field's "ordered sequence of error descriptors". *)
Definition putError (field : string) (e : error) (changeset : t) : t :=
  {| data := data changeset;
     changes := changes changeset;
     errors := <[field := (errorsOf field changeset ++ [e])%list]> (errors changeset) |}.

End Changeset.

(** ** The validators of [lib/validators.js] *)

(** Each function takes the options the source destructures, in the order
    of the destructuring pattern, and then the changeset; [mapObj] with
    [curry] exports every one of them curried, which the functions below
    are by construction. *)

Module Validators.

Import Utils Changeset.

(** [valid] of [required]: a non-blank string, a number, a boolean or a
    non-null object. *)
Definition valid (attr : value) : bool :=
  ((typeof attr =? "string")%string && negb (blank (string_of attr)))
  || (typeof attr =? "number")%string
  || (typeof attr =? "boolean")%string
  || ((typeof attr =? "object")%string && negb (strict_equal attr VNull)).

Definition required (fields : list string) (message : option string)
    (changeset : Changeset.t) : result Changeset.t :=
  let message := default "can't be blank" message in
  reduce (fun changeset field =>
    let '(ok, value) := getChange field changeset in
    let '(ok, value) :=
      if negb ok then getField field changeset else (ok, value) in
    if valid value then Ok changeset
    else
      Ok (pipe
            (putError field
               {| message := message; validation := "required"; extra := [] |})
            (putChange field VNull)
            changeset))
    fields changeset.

(** The three message builders of [length], for strings and for arrays. *)
Record messages : Type := {
  is_ : number -> string;
  min_ : number -> string;
  max_ : number -> string
}.

Definition string_messages : messages :=
  {| is_ := fun x => "should be " ++ number_to_string x ++ " character(s)";
     min_ := fun x => "should be at least " ++ number_to_string x ++ " character(s)";
     max_ := fun x => "should be at most " ++ number_to_string x ++ " character(s)" |}.

Definition array_messages : messages :=
  {| is_ := fun x => "should have " ++ number_to_string x ++ " items(s)";
     min_ := fun x => "should have at least " ++ number_to_string x ++ " items(s)";
     max_ := fun x => "should have at most " ++ number_to_string x ++ " items(s)" |}.

(** The message [length] selects: three assignments in sequence, the last
    one that fires wins. *)
Definition select_message (messages : messages) (min max length : number)
  : option string :=
  let message := None in
  let message :=
    if num_eqb min max && num_eqb min length then Some (is_ messages min)
    else message in
  let message :=
    if num_ltb length min then Some (min_ messages min) else message in
  let message :=
    if num_ltb max length then Some (max_ messages max) else message in
  message.

Definition length (customMessage : option string) (min max : number)
    (fields : list string) (changeset : Changeset.t) : result Changeset.t :=
  reduce (fun changeset field =>
    let '(ok, value) := getChange field changeset in
    if negb ok then Ok changeset
    else
      let isString := (typeof value =? "string")%string in
      if negb (isString || isArray value) then
        Throw ("Invalid type of " ++ quote ++ field ++ quote
               ++ ". Valid types: string, array.")
      else
        let messages := if isString then string_messages else array_messages in
        let length := length_of value in
        match select_message messages min max length with
        | Some message =>
            if truthy_string message then
              Ok (putError field
                    {| message := or_else customMessage message;
                       validation := "length";
                       extra := [("min", AValue (VNum min));
                                 ("max", AValue (VNum max))] |}
                    changeset)
            else Ok changeset
        | None => Ok changeset
        end)
    fields changeset.

Definition acceptance (message : option string) (fields : list string)
    (changeset : Changeset.t) : result Changeset.t :=
  let message := default "must be accepted" message in
  reduce (fun changeset field =>
    let '(ok, value) := getChange field changeset in
    if negb ok then Ok changeset
    else if negb (typeof value =? "boolean")%string then
      Throw ("Invalid type of " ++ field ++ ". Valid types: boolean.")
    else if truthy value then Ok changeset
    else
      Ok (putError field
            {| message := message; validation := "acceptance"; extra := [] |}
            changeset))
    fields changeset.

(** The custom validator of [change] is taken as a function of the value:
    it returns an array of descriptors, does not throw and keeps no
    state. *)
Definition change (validator : value -> list error) (fields : list string)
    (changeset : Changeset.t) : result Changeset.t :=
  reduce (fun changeset field =>
    let '(ok, value) := getChange field changeset in
    if negb ok then Ok changeset
    else
      Ok (fold_left (fun changeset error => putError field error changeset)
            (validator value) changeset))
    fields changeset.

Definition confirmation (message : option string) (fields : list string)
    (changeset : Changeset.t) : result Changeset.t :=
  let message := default "does not match" message in
  reduce (fun changeset field =>
    let confirmationField := field ++ "Confirmation" in
    let '(okValue, value) := getChange field changeset in
    let '(okConfirmation, confirmation) :=
      getChange confirmationField changeset in
    if negb okValue && negb okConfirmation then Ok changeset
    else if isEqual value confirmation then Ok changeset
    else
      Ok (putError field
            {| message := message; validation := "confirmation";
               extra := [("confirmation", AValue confirmation)] |}
            changeset))
    fields changeset.

Definition exclusion (message : option string) (fields : list string)
    (reserved : list value) (changeset : Changeset.t) : result Changeset.t :=
  let message := default "is reserved" message in
  reduce (fun changeset field =>
    let '(ok, value) := getChange field changeset in
    if negb ok then Ok changeset
    else if negb (existsb (fun x => strict_equal x value) reserved) then
      Ok changeset
    else
      Ok (putError field
            {| message := message; validation := "exclusion";
               extra := [("reserved", AValues reserved)] |}
            changeset))
    fields changeset.

Definition inclusion (message : option string) (fields : list string)
    (include : list value) (changeset : Changeset.t) : result Changeset.t :=
  let message := default "is invalid" message in
  reduce (fun changeset field =>
    let '(ok, value) := getChange field changeset in
    if negb ok then Ok changeset
    else if existsb (fun x => strict_equal x value) include then Ok changeset
    else
      Ok (putError field
            {| message := message; validation := "inclusion";
               extra := [("include", AValues include)] |}
            changeset))
    fields changeset.

(** A step of [format]: [value.match(match)] reads and writes the
    [lastIndex] of the expression, which the reducer carries beside the
    changeset. *)
Definition format_step (message : string) (match_ : pattern)
    (state : Changeset.t * nat) (field : string)
  : result (Changeset.t * nat) :=
  let '(changeset, lastIndex) := state in
  let '(ok, value) := getChange field changeset in
  if negb ok then Ok (changeset, lastIndex)
  else if negb (typeof value =? "string")%string then
    Throw ("Invalid type of " ++ field ++ ". Valid types: string.")
  else
    let '(found, lastIndex) :=
      string_match match_ lastIndex (string_of value) in
    if found then Ok (changeset, lastIndex)
    else
      Ok (putError field
            {| message := message; validation := "format";
               extra := [("match", APattern match_)] |}
            changeset,
          lastIndex).

(** The reducer of [format] from a changeset and a [lastIndex]. *)
Definition format_run (message : option string) (fields : list string)
    (match_ : pattern) (state : Changeset.t * nat)
  : result (Changeset.t * nat) :=
  let message := default "has invalid format" message in
  reduce (format_step message match_) fields state.

Definition format (message : option string) (fields : list string)
    (match_ : regexp) (changeset : Changeset.t) : result Changeset.t :=
  let* final :=
    format_run message fields (pat match_) (changeset, lastIndex match_) in
  Ok (fst final).

Definition lessThan (message : option string) (number : JS.number)
    (fields : list string) (changeset : Changeset.t) : result Changeset.t :=
  let message :=
    or_else message ("must be less than " ++ number_to_string number) in
  reduce (fun changeset field =>
    let '(ok, value) := getChange field changeset in
    if negb ok then Ok changeset
    else
      let* holds := less_than value (VNum number) in
      if holds then Ok changeset
      else
        Ok (putError field
              {| message := message; validation := "less than";
                 extra := [("number", AValue (VNum number))] |}
              changeset))
    fields changeset.

Definition greaterThan (message : option string) (number : JS.number)
    (fields : list string) (changeset : Changeset.t) : result Changeset.t :=
  let message :=
    or_else message ("must be greater than " ++ number_to_string number) in
  reduce (fun changeset field =>
    let '(ok, value) := getChange field changeset in
    if negb ok then Ok changeset
    else
      let* holds := greater_than value (VNum number) in
      if holds then Ok changeset
      else
        Ok (putError field
              {| message := message; validation := "greater than";
                 extra := [("number", AValue (VNum number))] |}
              changeset))
    fields changeset.

Definition lessThanOrEqualTo (message : option string) (number : JS.number)
    (fields : list string) (changeset : Changeset.t) : result Changeset.t :=
  let message :=
    or_else message
      ("must be less than or equal to " ++ number_to_string number) in
  reduce (fun changeset field =>
    let '(ok, value) := getChange field changeset in
    if negb ok then Ok changeset
    else
      let* holds := less_equal value (VNum number) in
      if holds then Ok changeset
      else
        Ok (putError field
              {| message := message; validation := "less than or equal to";
                 extra := [("number", AValue (VNum number))] |}
              changeset))
    fields changeset.

Definition greaterThanOrEqualTo (message : option string) (number : JS.number)
    (fields : list string) (changeset : Changeset.t) : result Changeset.t :=
  let message :=
    or_else message
      ("must be greater than or equal to " ++ number_to_string number) in
  reduce (fun changeset field =>
    let '(ok, value) := getChange field changeset in
    if negb ok then Ok changeset
    else
      let* holds := greater_equal value (VNum number) in
      if holds then Ok changeset
      else
        Ok (putError field
              {| message := message; validation := "greater than or equal to";
                 extra := [("number", AValue (VNum number))] |}
              changeset))
    fields changeset.

Definition equalTo (message : option string) (number : JS.number)
    (fields : list string) (changeset : Changeset.t) : result Changeset.t :=
  let message :=
    or_else message ("must be equal to " ++ number_to_string number) in
  reduce (fun changeset field =>
    let '(ok, value) := getChange field changeset in
    if negb ok then Ok changeset
    else
      let* holds := loose_equal value (VNum number) in
      if holds then Ok changeset
      else
        Ok (putError field
              {| message := message; validation := "equal to";
                 extra := [("number", AValue (VNum number))] |}
              changeset))
    fields changeset.

(** The exported namespace: a validator of the library bound to its
    options, ready to receive the changeset. *)
Inductive bound : Type :=
  | Required (fields : list string) (message : option string)
  | Length (customMessage : option string) (min max : number)
      (fields : list string)
  | Acceptance (message : option string) (fields : list string)
  | Change (validator : value -> list error) (fields : list string)
  | Confirmation (message : option string) (fields : list string)
  | Exclusion (message : option string) (fields : list string)
      (reserved : list value)
  | Inclusion (message : option string) (fields : list string)
      (include : list value)
  | Format (message : option string) (fields : list string) (match_ : regexp)
  | LessThan (message : option string) (number : JS.number)
      (fields : list string)
  | GreaterThan (message : option string) (number : JS.number)
      (fields : list string)
  | LessThanOrEqualTo (message : option string) (number : JS.number)
      (fields : list string)
  | GreaterThanOrEqualTo (message : option string) (number : JS.number)
      (fields : list string)
  | EqualTo (message : option string) (number : JS.number)
      (fields : list string).

Definition apply (v : bound) : Changeset.t -> result Changeset.t :=
  match v with
  | Required fields message => required fields message
  | Length customMessage min max fields => length customMessage min max fields
  | Acceptance message fields => acceptance message fields
  | Change validator fields => change validator fields
  | Confirmation message fields => confirmation message fields
  | Exclusion message fields reserved => exclusion message fields reserved
  | Inclusion message fields include => inclusion message fields include
  | Format message fields match_ => format message fields match_
  | LessThan message number fields => lessThan message number fields
  | GreaterThan message number fields => greaterThan message number fields
  | LessThanOrEqualTo message number fields =>
      lessThanOrEqualTo message number fields
  | GreaterThanOrEqualTo message number fields =>
      greaterThanOrEqualTo message number fields
  | EqualTo message number fields => equalTo message number fields
  end.

End Validators.

(** ** The vocabulary of the properties *)

Import Utils Changeset Validators.

(** The value of a finite double, counted in units of [2^-1074] (the
    smallest positive double), so that every valid double has an integer
    value; [None] for NaN and the infinities. *)
Definition exact (x : number) : option Z :=
  match x with
  | S754_zero _ => Some 0
  | S754_finite s m e =>
      Some ((if s then - Zpos m else Zpos m) * 2 ^ (e + 1074))
  | _ => None
  end.

(** The number one in the same units. *)
Definition unit : Z := 2 ^ 1074.


(** [cs'] is [cs] with error descriptors appended: same data, and on
    every field either the same entry of the error mapping or the old
    sequence followed by new descriptors. *)
Definition appended (cs cs' : Changeset.t) : Prop :=
  data cs' = data cs /\
  forall g,
    errors cs' !! g = errors cs !! g \/
    exists new, new <> [] /\
      errors cs' !! g = Some (errorsOf g cs ++ new)%list.

(** Some field has strictly more errors in [cs'] than in [cs]. *)
Definition more_errors (cs cs' : Changeset.t) : Prop :=
  exists g,
    (List.length (errorsOf g cs) < List.length (errorsOf g cs'))%nat.

(** The outcome of one step of a reducer: the changeset itself, or a
    changeset with more errors. *)
Definition inflates (cs cs' : Changeset.t) : Prop :=
  cs' = cs \/ (appended cs cs' /\ more_errors cs cs').

(** What [required] may have done to the change of a field [g]: nothing,
    or [null] written on a field of the list that also got an error. *)
Definition nulled (fields : list string) (g : string)
    (cs cs' : Changeset.t) : Prop :=
  changes cs' !! g = changes cs !! g \/
  (In g fields /\ changes cs' !! g = Some VNull /\
   (List.length (errorsOf g cs) < List.length (errorsOf g cs'))%nat).

(** The effective value of a field in the words of the specification:
    the pending change, and the persisted value when there is none. *)
Definition effective (f : string) (cs : Changeset.t) : value :=
  if fst (getChange f cs) then snd (getChange f cs) else snd (getField f cs).

(** The field has a pending change that [well_typed] rejects. *)
Definition wrong_type (well_typed : value -> bool) (f : string)
    (cs : Changeset.t) : bool :=
  fst (getChange f cs) && negb (well_typed (snd (getChange f cs))).

(** The types [length], [acceptance] and [format] accept. *)
Definition length_type (v : value) : bool :=
  (typeof v =? "string")%string || isArray v.
Definition acceptance_type (v : value) : bool :=
  (typeof v =? "boolean")%string.
Definition format_type (v : value) : bool :=
  (typeof v =? "string")%string.

(** *** The options of a bound validator *)

(** The [fields] option. *)
Definition fields_of (b : bound) : list string :=
  match b with
  | Required fields _ => fields
  | Length _ _ _ fields => fields
  | Acceptance _ fields => fields
  | Change _ fields => fields
  | Confirmation _ fields => fields
  | Exclusion _ fields _ => fields
  | Inclusion _ fields _ => fields
  | Format _ fields _ => fields
  | LessThan _ _ fields => fields
  | GreaterThan _ _ fields => fields
  | LessThanOrEqualTo _ _ fields => fields
  | GreaterThanOrEqualTo _ _ fields => fields
  | EqualTo _ _ fields => fields
  end.

(** The same validator and options with another list of fields. *)
Definition with_fields (b : bound) (fields : list string) : bound :=
  match b with
  | Required _ message => Required fields message
  | Length customMessage min max _ => Length customMessage min max fields
  | Acceptance message _ => Acceptance message fields
  | Change validator _ => Change validator fields
  | Confirmation message _ => Confirmation message fields
  | Exclusion message _ reserved => Exclusion message fields reserved
  | Inclusion message _ include => Inclusion message fields include
  | Format message _ match_ => Format message fields match_
  | LessThan message number _ => LessThan message number fields
  | GreaterThan message number _ => GreaterThan message number fields
  | LessThanOrEqualTo message number _ =>
      LessThanOrEqualTo message number fields
  | GreaterThanOrEqualTo message number _ =>
      GreaterThanOrEqualTo message number fields
  | EqualTo message number _ => EqualTo message number fields
  end.

(** The fields whose pending change the validator reads: the listed ones
    and, for [confirmation], their confirmation fields. *)
Definition read_fields (b : bound) : list string :=
  match b with
  | Confirmation _ fields =>
      (fields ++ List.map (fun f => (f ++ "Confirmation")%string) fields)%list
  | _ => fields_of b
  end.

(** The [validation] tag the validator writes in its descriptors; [change]
    appends the descriptors of its caller and has none. *)
Definition tag_of (b : bound) : option string :=
  match b with
  | Required _ _ => Some "required"
  | Length _ _ _ _ => Some "length"
  | Acceptance _ _ => Some "acceptance"
  | Change _ _ => None
  | Confirmation _ _ => Some "confirmation"
  | Exclusion _ _ _ => Some "exclusion"
  | Inclusion _ _ _ => Some "inclusion"
  | Format _ _ _ => Some "format"
  | LessThan _ _ _ => Some "less than"
  | GreaterThan _ _ _ => Some "greater than"
  | LessThanOrEqualTo _ _ _ => Some "less than or equal to"
  | GreaterThanOrEqualTo _ _ _ => Some "greater than or equal to"
  | EqualTo _ _ _ => Some "equal to"
  end.

(** The [message] option. *)
Definition message_of (b : bound) : option string :=
  match b with
  | Required _ message => message
  | Length customMessage _ _ _ => customMessage
  | Acceptance message _ => message
  | Change _ _ => None
  | Confirmation message _ => message
  | Exclusion message _ _ => message
  | Inclusion message _ _ => message
  | Format message _ _ => message
  | LessThan message _ _ => message
  | GreaterThan message _ _ => message
  | LessThanOrEqualTo message _ _ => message
  | GreaterThanOrEqualTo message _ _ => message
  | EqualTo message _ _ => message
  end.

(** The validators that take their message with [message || default],
    where the others declare [message = default] in their parameters. *)
Definition message_or_default (b : bound) : bool :=
  match b with
  | Length _ _ _ _ | LessThan _ _ _ | GreaterThan _ _ _
  | LessThanOrEqualTo _ _ _ | GreaterThanOrEqualTo _ _ _ | EqualTo _ _ _ =>
      true
  | _ => false
  end.

(** The same validator with the [message] option left out. *)
Definition without_message (b : bound) : bound :=
  match b with
  | Required fields _ => Required fields None
  | Length _ min max fields => Length None min max fields
  | Acceptance _ fields => Acceptance None fields
  | Change validator fields => Change validator fields
  | Confirmation _ fields => Confirmation None fields
  | Exclusion _ fields reserved => Exclusion None fields reserved
  | Inclusion _ fields include => Inclusion None fields include
  | Format _ fields match_ => Format None fields match_
  | LessThan _ number fields => LessThan None number fields
  | GreaterThan _ number fields => GreaterThan None number fields
  | LessThanOrEqualTo _ number fields => LessThanOrEqualTo None number fields
  | GreaterThanOrEqualTo _ number fields =>
      GreaterThanOrEqualTo None number fields
  | EqualTo _ number fields => EqualTo None number fields
  end.

(** *** The state of the regular expression of [format] *)

(** Whether [value.match(match)] finds a match at this call. *)
Definition matches (match_ : regexp) (s : string) : bool :=
  fst (string_match (pat match_) (lastIndex match_) s).

(** The regular expression as a call of [format] that returns leaves it. *)
Definition format_after (message : option string) (fields : list string)
    (match_ : regexp) (cs : Changeset.t) : regexp :=
  match format_run message fields (pat match_) (cs, lastIndex match_) with
  | Ok final => {| pat := pat match_; lastIndex := snd final |}
  | Throw _ => match_
  end.

(** The options as a call that returns leaves them: those of the call,
    the regular expression of [format] apart. *)
Definition after (b : bound) (cs : Changeset.t) : bound :=
  match b with
  | Format message fields match_ =>
      Format message fields (format_after message fields match_ cs)
  | _ => b
  end.

(** The validators whose outcome does not depend on what earlier calls
    left behind: all of them but [format] with a sticky expression. *)
Definition stateless (b : bound) : bool :=
  match b with
  | Format _ _ match_ => negb (sticky (pat match_))
  | _ => true
  end.

(** *** Conversions *)

(** The values that the comparison operators can convert to a primitive. *)
Definition convertible (v : value) : bool :=
  match to_primitive v with
  | Ok _ => true
  | Throw _ => false
  end.

(** The exceptions that are strings. *)
Definition text_thrown (e : exn) : Prop := exists thrown : string, e = thrown.

(** The numbers, the strings and the booleans. *)
Definition scalar (v : value) : bool :=
  match v with
  | VBool _ | VNum _ | VStr _ => true
  | _ => false
  end.

(** *** What one step of a reducer does to a field *)

(** Appending a list of descriptors on a field, one by one. *)
Definition putErrors (f : string) (l : list error) (cs : Changeset.t)
  : Changeset.t :=
  fold_left (fun changeset error => putError f error changeset) l cs.

(** Appending descriptors on a field and then, when [null] is set, writing
    [null] as its change: the shape of every step of every validator. *)
Definition amend (f : string) (l : list error) (null : bool)
    (cs : Changeset.t) : Changeset.t :=
  if null then putChange f VNull (putErrors f l cs) else putErrors f l cs.

(** *** Sequences of steps *)

(** [folds R fields cs cs']: [cs'] comes from [cs] by one step on each
    field of the list in turn, each step in the relation [R]. *)
Inductive folds (R : Changeset.t -> string -> Changeset.t -> Prop)
  : list string -> Changeset.t -> Changeset.t -> Prop :=
  | folds_nil cs : folds R [] cs cs
  | folds_cons f fields cs c1 cs' :
      R cs f c1 -> folds R fields c1 cs' -> folds R (f :: fields) cs cs'.

(** *** The descriptors of the validators *)

(** The descriptor of [format]. *)
Definition format_error (message : option string) (p : pattern) : error :=
  {| message := default "has invalid format" message;
     validation := "format"; extra := [("match", APattern p)] |}.

(** A step of [format] whatever the state of the expression: the
    changeset itself, or the changeset with the descriptor appended. *)
Definition format_may (message : option string) (p : pattern)
    (cs : Changeset.t) (f : string) (c1 : Changeset.t) : Prop :=
  c1 = cs \/ c1 = putError f (format_error message p) cs.

(** The step of [format] with an expression that is not sticky: the
    match does not depend on [lastIndex]. *)
Definition format_stateless_step (message : option string) (p : pattern)
    (changeset : Changeset.t) (field : string) : result Changeset.t :=
  let '(ok, value) := getChange field changeset in
  if negb ok then Ok changeset
  else if negb (typeof value =? "string")%string then
    Throw ("Invalid type of " ++ field ++ ". Valid types: string.")
  else if fst (string_match p 0%nat (string_of value)) then Ok changeset
  else Ok (putError field (format_error message p) changeset).

(** The descriptor of [required]. *)
Definition required_error (message : option string) : error :=
  {| message := default "can't be blank" message;
     validation := "required"; extra := [] |}.

(** The descriptor of a numeric comparison: its tag, the default message
    built from [text] and the number, and the number itself. *)
Definition comparison_error (tag text : string) (message : option string)
    (N : number) : error :=
  {| message := or_else message (text ++ number_to_string N);
     validation := tag;
     extra := [("number", AValue (VNum N))] |}.

(** *** The changesets of the examples *)

Definition empty_changeset : Changeset.t :=
  {| data := ∅; changes := ∅; errors := ∅ |}.

(** A changeset with one pending change and nothing else. *)
Definition pending (f : string) (v : value) : Changeset.t :=
  {| data := ∅; changes := {[ f := v ]}; errors := ∅ |}.

Definition num (z : Z) : number := of_Z z.

(** A pending [email] whose confirmation is persisted but not pending. *)
Definition persisted_confirmation : Changeset.t :=
  {| data := {[ "emailConfirmation" := VStr "a@b.com" ]};
     changes := {[ "email" := VStr "a@b.com" ]};
     errors := ∅ |}.

(** A pending [email] with a different pending confirmation. *)
Definition mismatched_confirmation : Changeset.t :=
  {| data := ∅;
     changes := {[ "email" := VStr "a@b.com";
                   "emailConfirmation" := VStr "a@b.org" ]};
     errors := ∅ |}.

(** Six pending tags. *)
Definition six_tags : Changeset.t :=
  pending "tags"
    (VArr 1%N [VStr "a"; VStr "b"; VStr "c"; VStr "d"; VStr "e"; VStr "f"]).

(** The expression [/@/]. *)
Definition at_sign : regexp :=
  {| pat := {| source := "@"; global := false; sticky := false;
               exec := fun i s =>
                 match String.index i "@" s with
                 | Some j => Some (j + 1)%nat
                 | None => None
                 end |};
     lastIndex := 0 |}.

(** The sticky expression [/a/y]. *)
Definition sticky_a : regexp :=
  {| pat := {| source := "a"; global := false; sticky := true;
               exec := fun i s =>
                 match String.get i s with
                 | Some c => if Ascii.eqb c "a" then Some (S i) else None
                 | None => None
                 end |};
     lastIndex := 0 |}.


(** A plain object with a property [toString] of its own. *)
Definition shadowed : value := VObj 1%N [("toString", VNum (num 1))].

(** A persisted title with a blank pending change, and with none. *)
Definition blank_over_persisted : Changeset.t :=
  {| data := {[ "title" := VStr "Dune" ]};
     changes := {[ "title" := VStr " " ]}; errors := ∅ |}.

Definition persisted_only : Changeset.t :=
  {| data := {[ "title" := VStr "Dune" ]}; changes := ∅; errors := ∅ |}.

(** ** Properties *)

(** *** Facts about doubles *)

Section Doubles.

Lemma num_ltb_irrefl (x : number) : num_ltb x x = false.
Proof.
  destruct x as [s|s| |s m e]; try (destruct s); try reflexivity;
    unfold num_ltb, SFltb, SFcompare;
    rewrite Z.compare_refl, Pos.compare_cont_refl; reflexivity.
Qed.

(** Two doubles that compare equal are the same double, or two zeros. *)
Lemma num_eqb_cases (x y : number) :
  num_eqb x y = true ->
  x = y \/ exists s1 s2, x = S754_zero s1 /\ y = S754_zero s2.
Proof.
  unfold num_eqb, SFeqb.
  destruct x as [s1|s1| |s1 m1 e1], y as [s2|s2| |s2 m2 e2]; simpl;
    try discriminate; try (destruct s1; discriminate);
    try (destruct s2; discriminate).
  - intros _. right. eauto.
  - destruct s1, s2; try discriminate; auto.
  - destruct s1, s2; try discriminate;
      destruct (Z.compare e1 e2) eqn:He; try discriminate;
      apply Z.compare_eq in He; subst e2;
      destruct (Pos.compare_cont Eq m1 m2) eqn:Hm; try discriminate;
      apply Pos.compare_eq in Hm; subst m2; auto.
Qed.

Lemma num_eqb_ltb_l (x y z : number) :
  num_eqb x y = true -> num_ltb x z = num_ltb y z.
Proof.
  intros H. destruct (num_eqb_cases _ _ H) as [->|(s1 & s2 & -> & ->)];
    [reflexivity|]. destruct z; reflexivity.
Qed.

Lemma num_eqb_ltb_r (x y z : number) :
  num_eqb x y = true -> num_ltb z x = num_ltb z y.
Proof.
  intros H. destruct (num_eqb_cases _ _ H) as [->|(s1 & s2 & -> & ->)];
    [reflexivity|]. destruct z; reflexivity.
Qed.

Lemma digits2_pos_bounds (m : positive) :
  2 ^ (Zpos (digits2_pos m) - 1) <= Zpos m < 2 ^ Zpos (digits2_pos m).
Proof.
  induction m as [p IH|p IH|]; simpl digits2_pos.
  - rewrite Pos2Z.inj_succ, (Pos2Z.inj_xI p).
    replace (Z.succ (Zpos (digits2_pos p)) - 1)
      with (Z.succ (Zpos (digits2_pos p) - 1)) by lia.
    rewrite !Z.pow_succ_r by lia. lia.
  - rewrite Pos2Z.inj_succ, (Pos2Z.inj_xO p).
    replace (Z.succ (Zpos (digits2_pos p)) - 1)
      with (Z.succ (Zpos (digits2_pos p) - 1)) by lia.
    rewrite !Z.pow_succ_r by lia. lia.
  - simpl. lia.
Qed.

(** What validity says of a mantissa and its exponent. *)
Lemma bounded_inv (m : positive) (e : Z) :
  bounded prec emax m e = true ->
  -1074 <= e /\ Zpos m < 2 ^ 53 /\ (-1074 < e -> 2 ^ 52 <= Zpos m).
Proof.
  unfold bounded, canonical_mantissa, fexp, emin, prec, emax.
  intros H. apply andb_prop in H as [H _]. apply Z.eqb_eq in H.
  pose proof (digits2_pos_bounds m) as [Hlo Hhi].
  set (d := Zpos (digits2_pos m)) in *.
  assert (Hd : 0 < d) by (unfold d; lia).
  split; [lia|]. split.
  - assert (d <= 53) by lia.
    eapply Z.lt_le_trans; [exact Hhi|].
    apply Z.pow_le_mono_r; lia.
  - intros He. assert (d = 53) by lia.
    replace 52 with (d - 1) by lia. exact Hlo.
Qed.

(** With the same sign, the double of the larger exponent is the larger. *)
Lemma exponent_order (m1 m2 : positive) (e1 e2 : Z) :
  bounded prec emax m1 e1 = true -> bounded prec emax m2 e2 = true ->
  e1 < e2 ->
  Zpos m1 * 2 ^ (e1 + 1074) < Zpos m2 * 2 ^ (e2 + 1074).
Proof.
  intros H1 H2 He.
  apply bounded_inv in H1 as (Hb1 & Hm1 & _).
  apply bounded_inv in H2 as (Hb2 & _ & Hm2).
  specialize (Hm2 ltac:(lia)).
  assert (Hp : 0 < 2 ^ (e1 + 1074)) by (apply Z.pow_pos_nonneg; lia).
  assert (Hq : 2 * 2 ^ (e1 + 1074) <= 2 ^ (e2 + 1074)).
  { rewrite <- Z.pow_succ_r by lia. apply Z.pow_le_mono_r; lia. }
  change (2 ^ 53) with (2 ^ 52 * 2) in Hm1.
  set (p := 2 ^ (e1 + 1074)) in *. set (q := 2 ^ (e2 + 1074)) in *.
  set (h := 2 ^ 52) in *.
  assert (0 < h) by (unfold h; lia).
  nia.
Qed.

(** On valid doubles the comparison of the runtime orders the values. *)
Lemma num_ltb_exact (x y : number) (a b : Z) :
  valid_binary prec emax x = true -> valid_binary prec emax y = true ->
  exact x = Some a -> exact y = Some b -> a < b ->
  num_ltb x y = true.
Proof.
  intros Vx Vy Hx Hy Hab. unfold num_ltb, SFltb.
  destruct x as [s1|s1| |s1 m1 e1], y as [s2|s2| |s2 m2 e2];
    simpl in Hx, Hy; try discriminate;
    injection Hx as <-; injection Hy as <-; simpl in Vx, Vy.
  - lia.
  - pose proof (bounded_inv _ _ Vy) as (Hb & _ & _).
    assert (0 < 2 ^ (e2 + 1074)) by (apply Z.pow_pos_nonneg; lia).
    simpl. destruct s2; [nia|reflexivity].
  - pose proof (bounded_inv _ _ Vx) as (Hb & _ & _).
    assert (0 < 2 ^ (e1 + 1074)) by (apply Z.pow_pos_nonneg; lia).
    simpl. destruct s1; [reflexivity|nia].
  - pose proof (bounded_inv _ _ Vx) as (Hb1 & _ & _).
    pose proof (bounded_inv _ _ Vy) as (Hb2 & _ & _).
    assert (P1 : 0 < 2 ^ (e1 + 1074)) by (apply Z.pow_pos_nonneg; lia).
    assert (P2 : 0 < 2 ^ (e2 + 1074)) by (apply Z.pow_pos_nonneg; lia).
    simpl. destruct s1, s2; try reflexivity; try nia.
    + destruct (Z.compare_spec e1 e2) as [->|He|He].
      * replace (Pos.compare_cont Eq m1 m2) with (Pos.compare m1 m2)
          by reflexivity.
        destruct (Pos.compare_spec m1 m2) as [->|Hm|Hm]; simpl;
          [lia|nia|reflexivity].
      * pose proof (exponent_order _ _ _ _ Vx Vy He). lia.
      * reflexivity.
    + destruct (Z.compare_spec e1 e2) as [->|He|He].
      * replace (Pos.compare_cont Eq m1 m2) with (Pos.compare m1 m2)
          by reflexivity.
        destruct (Pos.compare_spec m1 m2) as [->|Hm|Hm]; simpl;
          [lia|reflexivity|nia].
      * reflexivity.
      * pose proof (exponent_order _ _ _ _ Vy Vx He). lia.
Qed.

Lemma num_ltb_asym (x y : number) :
  num_ltb x y = true -> num_ltb y x = false.
Proof.
  unfold num_ltb, SFltb.
  destruct x as [s1|s1| |s1 m1 e1], y as [s2|s2| |s2 m2 e2]; simpl;
    try discriminate; try (destruct s1; discriminate);
    try (destruct s2; discriminate);
    try (destruct s1, s2; simpl; congruence).
  change (Pos.compare_cont Eq m1 m2) with (Pos.compare m1 m2).
  change (Pos.compare_cont Eq m2 m1) with (Pos.compare m2 m1).
  rewrite (Z.compare_antisym e1 e2), (Pos.compare_antisym m1 m2).
  destruct s1, s2; try discriminate; try reflexivity;
    destruct (Z.compare e1 e2); simpl; try discriminate; try reflexivity;
    destruct (Pos.compare m1 m2); simpl; try discriminate; reflexivity.
Qed.

(** Two valid doubles of the same value do not compare as smaller. *)
Lemma num_ltb_exact_eq (x y : number) (a : Z) :
  valid_binary prec emax x = true -> valid_binary prec emax y = true ->
  exact x = Some a -> exact y = Some a ->
  num_ltb x y = false.
Proof.
  intros Vx Vy Hx Hy.
  destruct (num_ltb x y) eqn:Hlt; [|reflexivity]. exfalso.
  unfold num_ltb, SFltb in Hlt.
  destruct x as [s1|s1| |s1 m1 e1], y as [s2|s2| |s2 m2 e2];
    simpl in Hx, Hy; try discriminate;
    injection Hx as <-; injection Hy as Hy; simpl in Vx, Vy, Hlt.
  - pose proof (bounded_inv _ _ Vy) as (Hb & _ & _).
    assert (0 < 2 ^ (e2 + 1074)) by (apply Z.pow_pos_nonneg; lia).
    destruct s2; nia.
  - pose proof (bounded_inv _ _ Vx) as (Hb & _ & _).
    assert (0 < 2 ^ (e1 + 1074)) by (apply Z.pow_pos_nonneg; lia).
    destruct s1; nia.
  - pose proof (bounded_inv _ _ Vx) as (Hb1 & _ & _).
    pose proof (bounded_inv _ _ Vy) as (Hb2 & _ & _).
    assert (P1 : 0 < 2 ^ (e1 + 1074)) by (apply Z.pow_pos_nonneg; lia).
    assert (P2 : 0 < 2 ^ (e2 + 1074)) by (apply Z.pow_pos_nonneg; lia).
    assert (Hs : s1 = s2) by (destruct s1, s2; try reflexivity; nia).
    subst s2.
    assert (He : e1 = e2).
    { destruct (Z.lt_trichotomy e1 e2) as [He|[He|He]]; [|exact He|].
      - pose proof (exponent_order _ _ _ _ Vx Vy He). destruct s1; nia.
      - pose proof (exponent_order _ _ _ _ Vy Vx He). destruct s1; nia. }
    subst e2.
    assert (Hm : m1 = m2) by (destruct s1; nia). subst m2.
    rewrite Z.compare_refl, Pos.compare_cont_refl in Hlt.
    destruct s1; discriminate Hlt.
Qed.

(** The comparison of valid finite doubles is that of their values. *)
Lemma num_ltb_exact_iff (x y : number) (a b : Z) :
  valid_binary prec emax x = true -> valid_binary prec emax y = true ->
  exact x = Some a -> exact y = Some b ->
  num_ltb x y = true <-> a < b.
Proof.
  intros Vx Vy Hx Hy. split; [|apply num_ltb_exact; assumption].
  intros Hlt. destruct (Z.lt_trichotomy a b) as [H|[H|H]]; [exact H| |].
  - subst b. rewrite (num_ltb_exact_eq x y a Vx Vy Hx Hy) in Hlt.
    discriminate.
  - pose proof (num_ltb_exact y x b a Vy Vx Hy Hx H) as Hgt.
    rewrite (num_ltb_asym x y Hlt) in Hgt. discriminate.
Qed.

End Doubles.

(** *** Facts about the accessors *)

Section Accessors.

Implicit Types (cs : Changeset.t) (f g : string) (e : error) (v : value).

Lemma getChange_putError f g e cs :
  getChange f (putError g e cs) = getChange f cs.
Proof. reflexivity. Qed.

Lemma getChange_putChange f v cs :
  getChange f (putChange f v cs) = (negb (is_nullish v), v).
Proof. unfold getChange, read. simpl. rewrite lookup_insert_eq. reflexivity. Qed.

Lemma errorsOf_putError f e cs :
  errorsOf f (putError f e cs) = (errorsOf f cs ++ [e])%list.
Proof. unfold errorsOf at 1. simpl. rewrite lookup_insert_eq. reflexivity. Qed.

Lemma errorsOf_putError_ne f g e cs :
  f <> g -> errorsOf g (putError f e cs) = errorsOf g cs.
Proof.
  intros Hne. unfold errorsOf at 1. simpl.
  rewrite lookup_insert_ne by exact Hne. reflexivity.
Qed.

Lemma errorsOf_putChange f g v cs :
  errorsOf g (putChange f v cs) = errorsOf g cs.
Proof. reflexivity. Qed.

Lemma putError_changed f e cs : putError f e cs <> cs.
Proof.
  intros H. apply (f_equal (errorsOf f)) in H.
  rewrite errorsOf_putError in H.
  apply (f_equal (@List.length error)) in H.
  rewrite length_app in H. simpl in H. lia.
Qed.

Lemma is_nullish_cases v :
  is_nullish v = true -> v = VNull \/ v = VUndefined.
Proof. destruct v; simpl; intros H; try discriminate H; auto. Qed.

(** A value that is not found is [null] or [undefined]. *)
Lemma read_not_found f (m : gmap string value) :
  fst (read f m) = false ->
  snd (read f m) = VNull \/ snd (read f m) = VUndefined.
Proof.
  unfold read. destruct (m !! f) as [v|]; simpl; [|auto].
  intros H. apply negb_false_iff in H. apply is_nullish_cases, H.
Qed.

(** A value that is found is stored in the mapping and is neither [null]
    nor [undefined]. *)
Lemma read_found f (m : gmap string value) v :
  read f m = (true, v) -> m !! f = Some v /\ is_nullish v = false.
Proof.
  unfold read. destruct (m !! f) as [w|]; simpl; [|discriminate].
  intros H. injection H as H <-. split; [reflexivity|].
  apply negb_true_iff, H.
Qed.

Lemma length_append (s1 s2 : string) :
  String.length (s1 ++ s2) = (String.length s1 + String.length s2)%nat.
Proof. induction s1 as [|c s1 IH]; simpl; [reflexivity|]. rewrite IH. reflexivity. Qed.

(** A field is never its own confirmation field. *)
Lemma confirmation_field_differs f : f <> f ++ "Confirmation".
Proof.
  intros H. apply (f_equal String.length) in H.
  rewrite length_append in H. simpl in H. lia.
Qed.

End Accessors.

(** *** What a validator may do to a changeset *)

Section Frame.

Implicit Types (cs : Changeset.t) (f g : string) (e : error).

Lemma appended_refl cs : appended cs cs.
Proof. split; [reflexivity|]. intros g. left. reflexivity. Qed.

Lemma appended_trans cs1 cs2 cs3 :
  appended cs1 cs2 -> appended cs2 cs3 -> appended cs1 cs3.
Proof.
  intros [D1 E1] [D2 E2]. split; [congruence|]. intros g.
  destruct (E1 g) as [H1|(n1 & Hn1 & H1)], (E2 g) as [H2|(n2 & Hn2 & H2)].
  - left. congruence.
  - right. exists n2. split; [exact Hn2|].
    rewrite H2. unfold errorsOf. rewrite H1. reflexivity.
  - right. exists n1. split; [exact Hn1|]. congruence.
  - right. exists (n1 ++ n2)%list. split.
    + destruct n1; [congruence|discriminate].
    + rewrite H2. unfold errorsOf at 1. rewrite H1. simpl.
      rewrite <- app_assoc. reflexivity.
Qed.

Lemma appended_length cs cs' g :
  appended cs cs' ->
  (List.length (errorsOf g cs) <= List.length (errorsOf g cs'))%nat.
Proof.
  intros [_ E]. destruct (E g) as [H|(n & _ & H)].
  - unfold errorsOf. rewrite H. lia.
  - unfold errorsOf at 2. rewrite H. simpl. rewrite length_app. lia.
Qed.

Lemma appended_prefix cs cs' g :
  appended cs cs' -> errorsOf g cs `prefix_of` errorsOf g cs'.
Proof.
  intros [_ E]. destruct (E g) as [H|(n & _ & H)].
  - unfold errorsOf. rewrite H. reflexivity.
  - exists n. unfold errorsOf at 1. rewrite H. reflexivity.
Qed.

Lemma appended_putError f e cs : appended cs (putError f e cs).
Proof.
  split; [reflexivity|]. intros g. simpl.
  destruct (decide (f = g)) as [->|Hne].
  - right. exists [e]. split; [discriminate|]. apply lookup_insert_eq.
  - left. apply lookup_insert_ne. exact Hne.
Qed.

Lemma more_errors_putError f e cs : more_errors cs (putError f e cs).
Proof.
  exists f. rewrite errorsOf_putError, length_app. simpl. lia.
Qed.

Lemma appended_putChange f v cs : appended cs (putChange f v cs).
Proof. split; [reflexivity|]. intros g. left. reflexivity. Qed.

(** Appending a list of descriptors one by one, as [change] does. *)
Lemma appended_fold f (l : list error) cs :
  appended cs (fold_left (fun c e => putError f e c) l cs) /\
  changes (fold_left (fun c e => putError f e c) l cs) = changes cs /\
  (l = [] \/ more_errors cs (fold_left (fun c e => putError f e c) l cs)).
Proof.
  revert cs. induction l as [|e l IH]; intros cs; simpl.
  - split; [apply appended_refl|]. split; [reflexivity|]. left. reflexivity.
  - destruct (IH (putError f e cs)) as (A & C & _).
    split; [eapply appended_trans; [apply appended_putError|exact A]|].
    split; [rewrite C; reflexivity|]. right. exists f.
    eapply Nat.lt_le_trans; [|apply appended_length; exact A].
    rewrite errorsOf_putError, length_app. simpl. lia.
Qed.

(** What a reducer returns comes from its input by its steps. *)
Lemma reduce_folds (step : Changeset.t -> string -> result Changeset.t)
    fields cs cs' :
  reduce step fields cs = Ok cs' ->
  folds (fun cs f c1 => step cs f = Ok c1) fields cs cs'.
Proof.
  revert cs. induction fields as [|f fields IH]; intros cs H.
  - injection H as <-. constructor.
  - simpl in H. destruct (step cs f) as [c1|] eqn:Hs; [|discriminate].
    econstructor; [exact Hs|apply IH, H].
Qed.

(** Steps that inflate give back the input exactly when they left the
    error mapping as it was. *)
Lemma folds_inflates (R : Changeset.t -> string -> Changeset.t -> Prop) :
  (forall cs f c1, R cs f c1 -> inflates cs c1) ->
  forall fields cs cs',
    folds R fields cs cs' ->
    appended cs cs' /\ (errors cs' = errors cs -> cs' = cs).
Proof.
  intros Hstep fields cs cs' H.
  induction H as [cs|f fields cs c1 cs' Hs _ [A Fix]].
  - split; [apply appended_refl|reflexivity].
  - destruct (Hstep _ _ _ Hs) as [->|[A1 (g & Hg)]]; [auto|].
    split; [eapply appended_trans; eassumption|].
    intros He. exfalso.
    pose proof (appended_length _ _ g A) as Hle.
    unfold errorsOf in Hg, Hle. rewrite He in Hle. lia.
Qed.

(** Steps that keep the changes keep the changes. *)
Lemma folds_changes (R : Changeset.t -> string -> Changeset.t -> Prop) :
  (forall cs f c1, R cs f c1 -> changes c1 = changes cs) ->
  forall fields cs cs',
    folds R fields cs cs' -> changes cs' = changes cs.
Proof.
  intros Hstep fields cs cs' H.
  induction H as [cs|f fields cs c1 cs' Hs _ IH]; [reflexivity|].
  rewrite IH. eapply Hstep. exact Hs.
Qed.

(** A reducer whose steps inflate returns its input exactly when it left
    the error mapping as it was. *)
Lemma reduce_inflates (step : Changeset.t -> string -> result Changeset.t) :
  (forall cs f cs1, step cs f = Ok cs1 -> inflates cs cs1) ->
  forall fields cs cs',
    reduce step fields cs = Ok cs' ->
    appended cs cs' /\ (errors cs' = errors cs -> cs' = cs).
Proof.
  intros Hstep fields cs cs' H.
  exact (folds_inflates _ Hstep _ _ _ (reduce_folds _ _ _ _ H)).
Qed.

(** A reducer whose steps keep the changes keeps the changes. *)
Lemma reduce_changes (step : Changeset.t -> string -> result Changeset.t) :
  (forall cs f cs1, step cs f = Ok cs1 -> changes cs1 = changes cs) ->
  forall fields cs cs',
    reduce step fields cs = Ok cs' -> changes cs' = changes cs.
Proof.
  intros Hstep fields cs cs' H.
  exact (folds_changes _ Hstep _ _ _ (reduce_folds _ _ _ _ H)).
Qed.

End Frame.

(** *** The validators one by one *)

Section Steps.

Implicit Types (cs : Changeset.t) (f g : string) (v : value).

(** [required] on one field whose change and persisted value are both
    not found. *)
Lemma required_not_found f message cs :
  fst (getChange f cs) = false -> fst (getField f cs) = false ->
  required [f] message cs =
    Ok (putChange f VNull
          (putError f
             {| message := default "can't be blank" message;
                validation := "required"; extra := [] |} cs)).
Proof.
  intros Hc Hf. unfold required. simpl.
  destruct (getChange f cs) as [ok v]. simpl in Hc. subst ok. simpl.
  pose proof (read_not_found f (data cs) Hf) as Hv.
  change (read f (data cs)) with (getField f cs) in Hv.
  destruct (getField f cs) as [ok2 v2]. simpl in Hv.
  destruct Hv as [->| ->]; reflexivity.
Qed.

(** [length] passes over a field without a pending change. *)
Lemma length_not_found f customMessage min max cs :
  fst (getChange f cs) = false ->
  length customMessage min max [f] cs = Ok cs.
Proof.
  intros Hc. unfold length. simpl.
  destruct (getChange f cs) as [ok v]. simpl in Hc. subst ok. reflexivity.
Qed.

(** What [length] does with a pending string or array. *)
Lemma length_found f customMessage min max cs v :
  getChange f cs = (true, v) ->
  (typeof v =? "string")%string || isArray v = true ->
  length customMessage min max [f] cs =
    Ok match
         select_message
           (if (typeof v =? "string")%string then string_messages
            else array_messages) min max (length_of v)
       with
       | Some message =>
           if truthy_string message then
             putError f
               {| message := or_else customMessage message;
                  validation := "length";
                  extra := [("min", AValue (VNum min));
                            ("max", AValue (VNum max))] |} cs
           else cs
       | None => cs
       end.
Proof.
  intros Hc Ht. unfold length. simpl. rewrite Hc. simpl. rewrite Ht. simpl.
  destruct (select_message _ min max (length_of v)) as [m|]; [|reflexivity].
  destruct (truthy_string m); reflexivity.
Qed.

(** A step of [format], whatever the state of the expression. *)
Lemma format_step_may message (p : pattern) cs (li : nat) f c1 (li1 : nat) :
  format_step (default "has invalid format" message) p (cs, li) f
    = Ok (c1, li1) ->
  format_may message p cs f c1.
Proof.
  unfold format_step, format_may, format_error.
  destruct (getChange f cs) as [[|] v]; simpl.
  - destruct (negb (typeof v =? "string")%string); [discriminate|].
    destruct (string_match p li (string_of v)) as [[|] li2]; intros H;
      injection H as <- _; auto.
  - intros H. injection H as <- _. auto.
Qed.

Lemma format_run_folds message fields (p : pattern) cs (li : nat) final :
  format_run message fields p (cs, li) = Ok final ->
  folds (format_may message p) fields cs (fst final).
Proof.
  unfold format_run. revert cs li.
  induction fields as [|f fields IH]; intros cs li H.
  - injection H as <-. constructor.
  - cbn [reduce] in H.
    destruct (format_step (default "has invalid format" message) p (cs, li) f)
      as [[c1 li1]|] eqn:Hs; [|discriminate].
    econstructor; [eapply format_step_may, Hs|apply (IH _ _ H)].
Qed.

(** What [format] returns comes from its input by steps that return the
    changeset or append the descriptor of [format]. *)
Lemma format_folds message fields (match_ : regexp) cs cs' :
  format message fields match_ cs = Ok cs' ->
  folds (format_may message (pat match_)) fields cs cs'.
Proof.
  unfold format, bind. intros H.
  destruct (format_run message fields (pat match_) (cs, lastIndex match_))
    as [final|] eqn:Hr; [|discriminate].
  injection H as <-. eapply format_run_folds, Hr.
Qed.

End Steps.

(** *** Every validator inflates the changeset *)

Section Inflation.

Implicit Types (cs : Changeset.t) (f g : string) (v : value).

Lemma inflates_putError f e cs : inflates cs (putError f e cs).
Proof.
  right. split; [apply appended_putError|apply more_errors_putError].
Qed.

Lemma inflates_required_step f e v cs :
  inflates cs (pipe (putError f e) (putChange f v) cs).
Proof.
  right. unfold pipe. split.
  - eapply appended_trans; [apply appended_putError|apply appended_putChange].
  - exists f. rewrite errorsOf_putChange, errorsOf_putError, length_app.
    simpl. lia.
Qed.

Lemma inflates_fold f (l : list error) cs :
  inflates cs (fold_left (fun c e => putError f e c) l cs).
Proof.
  destruct (appended_fold f l cs) as (A & _ & [->|M]).
  - left. reflexivity.
  - right. split; assumption.
Qed.

Lemma inflates_format_may message (p : pattern) cs f c1 :
  format_may message p cs f c1 -> inflates cs c1.
Proof. intros [->| ->]; [left; reflexivity|apply inflates_putError]. Qed.

Lemma changes_format_may message (p : pattern) cs f c1 :
  format_may message p cs f c1 -> changes c1 = changes cs.
Proof. intros [->| ->]; reflexivity. Qed.

End Inflation.

(** Case analysis on one step of a reducer, given as the hypothesis [H]
    that the step returned. *)
Ltac step_cases H :=
  simpl in H;
  repeat (match type of H with
          | context [getChange ?f ?cs] =>
              destruct (getChange f cs) as [[|] ?]
          | context [getField ?f ?cs] =>
              destruct (getField f cs) as [[|] ?]
          | context [select_message ?a ?b ?c ?d] =>
              destruct (select_message a b c d)
          | context [bind ?r _] => destruct r
          | context [if ?b then _ else _] => destruct b
          end; simpl in H);
  first [discriminate H | injection H as <-].

Ltac step_inflates :=
  let H := fresh "H" in
  intros ? ? ? H; step_cases H;
  first [ left; reflexivity
        | apply inflates_putError
        | apply inflates_required_step
        | apply inflates_fold ].

Ltac step_keeps_changes :=
  let H := fresh "H" in
  intros ? ? ? H; step_cases H;
  first [ reflexivity | apply appended_fold ].

Section Library.

Implicit Types (cs : Changeset.t) (f g : string) (v : value).

(** Whatever the validator and its options, a returned changeset is the
    input with errors appended, and it is the input itself when the error
    mapping did not change. *)
Lemma apply_inflates (b : bound) cs cs' :
  apply b cs = Ok cs' ->
  appended cs cs' /\ (errors cs' = errors cs -> cs' = cs).
Proof.
  destruct b; simpl;
    try (intros H; apply format_folds in H; revert H;
         apply folds_inflates, inflates_format_may);
    unfold required, length, acceptance, change, confirmation, exclusion,
      inclusion, lessThan, greaterThan, lessThanOrEqualTo,
      greaterThanOrEqualTo, equalTo;
    apply reduce_inflates; step_inflates.
Qed.

(** Every validator but [required] returns the changes it received. *)
Lemma apply_keeps_changes (b : bound) cs cs' :
  match b with Required _ _ => False | _ => True end ->
  apply b cs = Ok cs' -> changes cs' = changes cs.
Proof.
  destruct b; simpl; intros Hb; try contradiction;
    try (intros H; apply format_folds in H; revert H;
         apply folds_changes, changes_format_may);
    unfold length, acceptance, change, confirmation, exclusion,
      inclusion, lessThan, greaterThan, lessThanOrEqualTo,
      greaterThanOrEqualTo, equalTo;
    apply reduce_changes; step_keeps_changes.
Qed.

Lemma nulled_skip f fields g cs cs' :
  nulled fields g cs cs' -> nulled (f :: fields) g cs cs'.
Proof.
  intros [H|(Hin & Hn & Hl)]; [left; exact H|].
  right. split; [right; exact Hin|]. split; assumption.
Qed.

Lemma nulled_flag f e fields g cs cs' :
  appended (putChange f VNull (putError f e cs)) cs' ->
  nulled fields g (putChange f VNull (putError f e cs)) cs' ->
  nulled (f :: fields) g cs cs'.
Proof.
  intros A [H|(Hin & Hn & Hl)].
  - simpl in H. destruct (decide (f = g)) as [->|Hne].
    + right. split; [left; reflexivity|].
      split; [rewrite H; apply lookup_insert_eq|].
      pose proof (appended_length _ _ g A) as L.
      rewrite errorsOf_putChange, errorsOf_putError, length_app in L.
      simpl in L. lia.
    + left. rewrite H. apply lookup_insert_ne. exact Hne.
  - right. split; [right; exact Hin|]. split; [exact Hn|].
    rewrite errorsOf_putChange in Hl.
    pose proof (appended_length _ _ g (appended_putError f e cs)). lia.
Qed.

(** [required] writes [null] on flagged fields of its list, and nothing
    else. *)
Lemma required_changes fields message cs cs' :
  required fields message cs = Ok cs' ->
  forall g, nulled fields g cs cs'.
Proof.
  revert cs. induction fields as [|f fields IH]; intros cs H g.
  - injection H as <-. left. reflexivity.
  - unfold required in H. simpl in H.
    match type of H with
    | match ?step with _ => _ end = _ => destruct step as [cs1|] eqn:Hs
    end; [|discriminate].
    change (required fields message cs1 = Ok cs') in H.
    pose proof (proj1 (apply_inflates (Required fields message) cs1 cs' H))
      as A.
    specialize (IH cs1 H g). clear H.
    step_cases Hs; unfold pipe in *;
      first [ apply nulled_skip; exact IH
            | eapply nulled_flag; [exact A|exact IH] ].
Qed.

End Library.

(** *** Misuse: a pending change of the wrong type *)

Section Misuse.

(** The reducer runs on an accumulator in which it keeps a changeset. *)
Context {A : Type}.
Variable view : A -> Changeset.t.
Variable well_typed : value -> bool.
Variable step : A -> string -> result A.
Variable raised : exn -> Prop.

Hypothesis step_throws : forall a f,
  wrong_type well_typed f (view a) = true ->
  exists e, raised e /\ step a f = Throw e.
Hypothesis step_returns : forall a f,
  wrong_type well_typed f (view a) = false ->
  exists a1, step a f = Ok a1 /\ changes (view a1) = changes (view a).

Lemma wrong_type_changes (f : string) (cs cs1 : Changeset.t) :
  changes cs1 = changes cs ->
  wrong_type well_typed f cs1 = wrong_type well_typed f cs.
Proof. unfold wrong_type, getChange. intros ->. reflexivity. Qed.

(** A wrong type anywhere in the list makes the reducer throw. *)
Lemma reduce_throws (fields : list string) (a : A) :
  (exists f, In f fields /\ wrong_type well_typed f (view a) = true) ->
  exists e, raised e /\ reduce step fields a = Throw e.
Proof.
  revert a. induction fields as [|f0 fields IH]; intros a (f & Hin & Hw).
  - destruct Hin.
  - simpl. destruct (wrong_type well_typed f0 (view a)) eqn:H0.
    + destruct (step_throws _ _ H0) as (e & He & ->). eauto.
    + destruct (step_returns _ _ H0) as (a1 & -> & Hc).
      apply IH. exists f. destruct Hin as [<-|Hin]; [congruence|].
      split; [exact Hin|]. rewrite (wrong_type_changes f _ _ Hc). exact Hw.
Qed.

(** Without a wrong type in the list the reducer returns. *)
Lemma reduce_returns (fields : list string) (a : A) :
  (forall f, In f fields -> wrong_type well_typed f (view a) = false) ->
  exists a', reduce step fields a = Ok a'.
Proof.
  revert a. induction fields as [|f0 fields IH]; intros a Hall.
  - simpl. eauto.
  - simpl. destruct (step_returns a f0 (Hall f0 (or_introl eq_refl)))
      as (a1 & -> & Hc).
    apply IH. intros f Hin. rewrite (wrong_type_changes f _ _ Hc).
    apply Hall. right. exact Hin.
Qed.

End Misuse.

(** One step of a type-checking reducer, by cases on the pending change. *)
Ltac misuse_step :=
  let H := fresh "H" in
  let c := fresh "c" in
  let g := fresh "g" in
  let v := fresh "v" in
  intros c g H; unfold wrong_type in H; cbv beta in H |- *; simpl;
  destruct (getChange g c) as [[|] v]; simpl in H |- *;
  [ destruct v; simpl in H |- *; try discriminate H;
    repeat match goal with
           | |- context [if ?b then _ else _] => destruct b
           | |- context [select_message ?a ?b ?c ?d] =>
               destruct (select_message a b c d)
           end;
    first [ eexists; split; [eexists; reflexivity|reflexivity] | eauto ]
  | try discriminate H; eauto ].

(** One step of [format], by cases on the pending change. *)
Ltac misuse_format_step :=
  let H := fresh "H" in
  let c := fresh "c" in
  let li := fresh "li" in
  let g := fresh "g" in
  let v := fresh "v" in
  intros [c li] g H; unfold wrong_type, format_type in H;
  unfold format_step; simpl in H |- *;
  destruct (getChange g c) as [[|] v]; simpl in H |- *;
  [ destruct v; simpl in H |- *; try discriminate H;
    try match goal with
        | |- context [string_match ?p ?i ?s] =>
            destruct (string_match p i s) as [[|] ?]
        end;
    first [ eexists; split; [eexists; reflexivity|reflexivity]
          | eexists; split; reflexivity ]
  | try discriminate H; eexists; split; reflexivity ].

(** *** The state of the regular expression *)

Section Expression.

Implicit Types (cs : Changeset.t) (p : pattern) (li : nat).

(** Only a sticky expression matches according to its [lastIndex]. *)
Lemma string_match_stateless p li li' (s : string) :
  sticky p = false ->
  fst (string_match p li s) = fst (string_match p li' s).
Proof.
  unfold string_match. intros ->.
  destruct (global p); destruct (exec p 0%nat s); reflexivity.
Qed.

Lemma format_run_stateless message fields p cs li :
  sticky p = false ->
  (let* final := format_run message fields p (cs, li) in Ok (fst final))
  = reduce (format_stateless_step message p) fields cs.
Proof.
  intros Hs. unfold format_run. revert cs li.
  induction fields as [|f fields IH]; intros cs li; [reflexivity|].
  cbn [reduce]. unfold format_step at 1, format_stateless_step at 1.
  destruct (getChange f cs) as [[|] v]; simpl.
  - destruct (negb (typeof v =? "string")%string); [reflexivity|].
    rewrite (string_match_stateless p 0%nat li (string_of v) Hs).
    destruct (string_match p li (string_of v)) as [[|] li1]; simpl;
      apply IH.
  - apply IH.
Qed.

(** With an expression that is not sticky, [format] is a reducer on the
    changeset alone. *)
Lemma format_stateless message fields (match_ : regexp) cs :
  sticky (pat match_) = false ->
  format message fields match_ cs
  = reduce (format_stateless_step message (pat match_)) fields cs.
Proof. intros Hs. unfold format. apply format_run_stateless, Hs. Qed.

Lemma pat_format_after message fields (match_ : regexp) cs :
  pat (format_after message fields match_ cs) = pat match_.
Proof.
  unfold format_after.
  destruct (format_run message fields (pat match_) (cs, lastIndex match_));
    reflexivity.
Qed.

End Expression.

(** *** Strict equality *)

(** [===] never holds between values of different types. *)
Lemma strict_equal_same_type (x y : value) :
  strict_equal x y = true -> typeof x = typeof y.
Proof. destruct x, y; simpl; congruence. Qed.

Lemma existsb_strict_equal (l : list value) (v : value) :
  existsb (fun x => strict_equal x v) l = true <->
  exists x, In x l /\ strict_equal x v = true.
Proof. apply existsb_exists. Qed.

(** *** An instance of [plus_one] *)


(** *** The claims *)

(** C1, where the code departs from the claim.  The claim says that a
    pending string whose length is exactly [min], with [min == max], gets
    no error.  The code does the opposite: the first assignment of
    [length] fires on the exact match and nothing overwrites it, so the
    validator appends the error "should be {min} character(s)". *)
Theorem length_exact_match_is_flagged
    (f s : string) (min max : number) (cs : Changeset.t) :
  getChange f cs = (true, VStr s) ->
  num_eqb min max = true ->
  num_eqb min (length_of (VStr s)) = true ->
  length None min max [f] cs =
    Ok (putError f
          {| message := "should be " ++ number_to_string min ++ " character(s)";
             validation := "length";
             extra := [("min", AValue (VNum min)); ("max", AValue (VNum max))] |}
          cs).
Proof.
  intros Hc Hmm Hml.
  rewrite (length_found f None min max cs (VStr s) Hc eq_refl). simpl.
  unfold select_message. rewrite Hmm, Hml. simpl.
  rewrite (num_eqb_ltb_r _ _ (length_of (VStr s)) Hml), num_ltb_irrefl.
  rewrite <- (num_eqb_ltb_l _ _ (length_of (VStr s)) Hmm).
  rewrite <- (num_eqb_ltb_r _ _ min Hml), num_ltb_irrefl.
  reflexivity.
Qed.

(** The failing input of C1: [length({fields: ['name'], min: 3, max: 3})]
    on the pending change ["abc"]. *)
Lemma length_exact_match_abc :
  length None (num 3) (num 3) ["name"] (pending "name" (VStr "abc")) =
    Ok (putError "name"
          {| message := "should be 3 character(s)";
             validation := "length";
             extra := [("min", AValue (VNum (num 3)));
                       ("max", AValue (VNum (num 3)))] |}
          (pending "name" (VStr "abc"))).
Proof.
  pose proof (length_exact_match_is_flagged "name" "abc" (num 3) (num 3)
                (pending "name" (VStr "abc"))) as H.
  specialize (H ltac:(reflexivity) ltac:(vm_compute; reflexivity)
                ltac:(vm_compute; reflexivity)).
  rewrite H. vm_compute. reflexivity.
Defined.

(** C2: on a changeset with no pending change and no persisted value for
    [title], [required] followed by [length] with [min: 5, max: 100]
    returns what [required] alone returns: [length] neither throws nor
    appends, although the change of [title] is now [null], and the one
    error appended on [title] is the [required] one. *)
Theorem required_then_length_only_required (cs : Changeset.t) :
  fst (getChange "title" cs) = false ->
  fst (getField "title" cs) = false ->
  exists cs',
    required ["title"] None cs = Ok cs' /\
    length None (num 5) (num 100) ["title"] cs' = Ok cs' /\
    pipeline (required ["title"] None)
      (length None (num 5) (num 100) ["title"]) cs = Ok cs' /\
    changes cs' !! "title" = Some VNull /\
    errorsOf "title" cs' =
      (errorsOf "title" cs ++
       [{| message := "can't be blank"; validation := "required";
           extra := [] |}])%list /\
    (errorsOf "title" cs = [] ->
     errorsOf "title" cs' =
       [{| message := "can't be blank"; validation := "required";
           extra := [] |}]).
Proof.
  intros Hc Hf.
  pose proof (required_not_found "title" None cs Hc Hf) as Hr.
  eexists. split; [exact Hr|].
  assert (Hl : forall cs', fst (getChange "title" (putChange "title" VNull cs'))
                           = false)
    by (intros cs'; rewrite getChange_putChange; reflexivity).
  split; [apply length_not_found, Hl|].
  split; [unfold pipeline; rewrite Hr; apply length_not_found, Hl|].
  split; [apply lookup_insert_eq|].
  rewrite errorsOf_putChange, errorsOf_putError. simpl.
  split; [reflexivity|intros ->; reflexivity].
Qed.

Lemma required_then_length_only_required_witness :
  exists cs',
    required ["title"] None empty_changeset = Ok cs' /\
    length None (num 5) (num 100) ["title"] cs' = Ok cs' /\
    pipeline (required ["title"] None)
      (length None (num 5) (num 100) ["title"]) empty_changeset = Ok cs' /\
    changes cs' !! "title" = Some VNull /\
    errorsOf "title" cs' =
      (errorsOf "title" empty_changeset ++
       [{| message := "can't be blank"; validation := "required";
           extra := [] |}])%list /\
    (errorsOf "title" empty_changeset = [] ->
     errorsOf "title" cs' =
       [{| message := "can't be blank"; validation := "required";
           extra := [] |}]).
Proof.
  apply (required_then_length_only_required empty_changeset); reflexivity.
Defined.

(** C3: [required] on a field with no pending change and no persisted
    value returns a changeset in which exactly one error was appended on
    the field (the only one when the field had none), tagged [required]
    with the default message, and the field's change is [null]. *)
Theorem required_flags_absent_field (f : string) (cs : Changeset.t) :
  fst (getChange f cs) = false ->
  fst (getField f cs) = false ->
  exists cs',
    required [f] None cs = Ok cs' /\
    errorsOf f cs' =
      (errorsOf f cs ++
       [{| message := "can't be blank"; validation := "required";
           extra := [] |}])%list /\
    (errorsOf f cs = [] ->
     errorsOf f cs' =
       [{| message := "can't be blank"; validation := "required";
           extra := [] |}]) /\
    changes cs' !! f = Some VNull /\
    data cs' = data cs.
Proof.
  intros Hc Hf. eexists. split; [apply required_not_found; assumption|].
  rewrite errorsOf_putChange, errorsOf_putError. simpl.
  split; [reflexivity|]. split; [intros ->; reflexivity|].
  split; [apply lookup_insert_eq|reflexivity].
Qed.

Lemma required_flags_absent_field_witness :
  exists cs',
    required ["title"] None empty_changeset = Ok cs' /\
    errorsOf "title" cs' =
      (errorsOf "title" empty_changeset ++
       [{| message := "can't be blank"; validation := "required";
           extra := [] |}])%list /\
    (errorsOf "title" empty_changeset = [] ->
     errorsOf "title" cs' =
       [{| message := "can't be blank"; validation := "required";
           extra := [] |}]) /\
    changes cs' !! "title" = Some VNull /\
    data cs' = data empty_changeset.
Proof.
  apply (required_flags_absent_field "title" empty_changeset);
    reflexivity.
Defined.

(** C4 as stated fails: with [email] pending and [emailConfirmation]
    persisted with the same value, the effective values are deeply equal,
    yet [confirmation] appends an error, because it compares what
    [getChange] returns for the two fields and the confirmation has no
    pending change. *)
Lemma confirmation_ignores_persisted_value :
  fst (getChange "email" persisted_confirmation) = true /\
  isEqual (effective "email" persisted_confirmation)
          (effective "emailConfirmation" persisted_confirmation) = true /\
  confirmation None ["email"] persisted_confirmation =
    Ok (putError "email"
          {| message := "does not match"; validation := "confirmation";
             extra := [("confirmation", AValue VUndefined)] |}
          persisted_confirmation) /\
  confirmation None ["email"] persisted_confirmation
    <> Ok persisted_confirmation.
Proof.
  split; [reflexivity|]. split; [reflexivity|].
  assert (H : confirmation None ["email"] persisted_confirmation =
    Ok (putError "email"
          {| message := "does not match"; validation := "confirmation";
             extra := [("confirmation", AValue VUndefined)] |}
          persisted_confirmation)) by reflexivity.
  split; [exact H|]. rewrite H. intros E.
  match type of E with
  | Ok ?x = Ok ?y => assert (E' : x = y) by congruence
  end.
  exact (putError_changed _ _ _ E').
Qed.

(** C4 amended: for every field [F], [confirmation] compares the two
    values that [getChange] returns for [F] and [F + "Confirmation"] (the
    pending changes, with no fallback to the persisted data).  It returns
    the changeset unchanged when neither field has a pending change and
    also when the two values are deeply equal; otherwise it appends
    exactly one error, on [F] and on no other field, tagged
    [confirmation] with the default message, carrying the value read
    for the confirmation field. *)
Theorem confirmation_compares_pending_changes (F : string) (cs : Changeset.t) :
  let C := F ++ "Confirmation" in
  let value := snd (getChange F cs) in
  let confirmation_value := snd (getChange C cs) in
  let e := {| message := "does not match"; validation := "confirmation";
              extra := [("confirmation", AValue confirmation_value)] |} in
  (fst (getChange F cs) = false /\ fst (getChange C cs) = false ->
   confirmation None [F] cs = Ok cs) /\
  (isEqual value confirmation_value = true ->
   confirmation None [F] cs = Ok cs) /\
  ((fst (getChange F cs) = true \/ fst (getChange C cs) = true) ->
   isEqual value confirmation_value = false ->
   confirmation None [F] cs = Ok (putError F e cs) /\
   errorsOf F (putError F e cs) = (errorsOf F cs ++ [e])%list /\
   errorsOf C (putError F e cs) = errorsOf C cs /\
   (forall g, g <> F -> errorsOf g (putError F e cs) = errorsOf g cs) /\
   data (putError F e cs) = data cs /\
   changes (putError F e cs) = changes cs).
Proof.
  intros C value confirmation_value e. subst value confirmation_value e.
  unfold confirmation. simpl. fold C.
  destruct (getChange F cs) as [okV v], (getChange C cs) as [okC c]. simpl.
  split; [intros [-> ->]; reflexivity|].
  split.
  - intros ->. destruct (negb okV && negb okC); reflexivity.
  - intros Hok Hne. rewrite Hne.
    replace (negb okV && negb okC) with false
      by (destruct okV, okC; simpl in *; destruct Hok; congruence).
    split; [reflexivity|]. split; [apply errorsOf_putError|].
    split; [apply errorsOf_putError_ne, confirmation_field_differs|].
    split; [|split; reflexivity].
    intros g Hg. apply errorsOf_putError_ne. congruence.
Qed.

Lemma confirmation_compares_pending_changes_witness :
  confirmation None ["email"] empty_changeset = Ok empty_changeset /\
  confirmation None ["email"] mismatched_confirmation =
    Ok (putError "email"
          {| message := "does not match"; validation := "confirmation";
             extra := [("confirmation", AValue (VStr "a@b.org"))] |}
          mismatched_confirmation).
Proof.
  split.
  - apply (confirmation_compares_pending_changes "email" empty_changeset).
    split; reflexivity.
  - apply (confirmation_compares_pending_changes "email"
             mismatched_confirmation); [left|]; reflexivity.
Defined.

(** C5: [length], [acceptance] and [format] throw as soon as a listed
    field has a pending change of a type they do not accept, and then
    return no changeset at all, so the misuse is recorded nowhere;
    when every pending change of the list is well typed they never throw
    and return the input with, at most, error descriptors appended. *)
Theorem type_misuse_throws
    (fields : list string) (cs : Changeset.t)
    (customMessage message : option string) (min max : number)
    (match_ : regexp) :
  ((exists f, In f fields /\ wrong_type length_type f cs = true) ->
   exists thrown : string,
     length customMessage min max fields cs = Throw thrown) /\
  ((forall f, In f fields -> wrong_type length_type f cs = false) ->
   exists cs', length customMessage min max fields cs = Ok cs' /\
     appended cs cs' /\ changes cs' = changes cs) /\
  ((exists f, In f fields /\ wrong_type acceptance_type f cs = true) ->
   exists thrown : string, acceptance message fields cs = Throw thrown) /\
  ((forall f, In f fields -> wrong_type acceptance_type f cs = false) ->
   exists cs', acceptance message fields cs = Ok cs' /\
     appended cs cs' /\ changes cs' = changes cs) /\
  ((exists f, In f fields /\ wrong_type format_type f cs = true) ->
   exists thrown : string, format message fields match_ cs = Throw thrown) /\
  ((forall f, In f fields -> wrong_type format_type f cs = false) ->
   exists cs', format message fields match_ cs = Ok cs' /\
     appended cs cs' /\ changes cs' = changes cs).
Proof.
  repeat split.
  - intros Hw.
    assert (T : exists e, text_thrown e /\
                length customMessage min max fields cs = Throw e).
    { unfold length.
      apply (reduce_throws (fun c => c) length_type _ text_thrown);
        [unfold length_type; misuse_step|unfold length_type; misuse_step
        |exact Hw]. }
    destruct T as (e & [thrown ->] & H). exists thrown. exact H.
  - intros Hall.
    assert (R : exists cs', length customMessage min max fields cs = Ok cs').
    { unfold length.
      apply (reduce_returns (fun c => c) length_type);
        [unfold length_type; misuse_step|exact Hall]. }
    destruct R as [cs' H].
    exists cs'. split; [exact H|].
    split; [apply (apply_inflates (Length customMessage min max fields)), H|].
    apply (apply_keeps_changes (Length customMessage min max fields) _ _ I H).
  - intros Hw.
    assert (T : exists e, text_thrown e /\
                acceptance message fields cs = Throw e).
    { unfold acceptance.
      apply (reduce_throws (fun c => c) acceptance_type _ text_thrown);
        [unfold acceptance_type; misuse_step
        |unfold acceptance_type; misuse_step|exact Hw]. }
    destruct T as (e & [thrown ->] & H). exists thrown. exact H.
  - intros Hall.
    assert (R : exists cs', acceptance message fields cs = Ok cs').
    { unfold acceptance.
      apply (reduce_returns (fun c => c) acceptance_type);
        [unfold acceptance_type; misuse_step|exact Hall]. }
    destruct R as [cs' H].
    exists cs'. split; [exact H|].
    split; [apply (apply_inflates (Acceptance message fields)), H|].
    apply (apply_keeps_changes (Acceptance message fields) _ _ I H).
  - intros Hw. unfold format, format_run.
    destruct (reduce_throws fst format_type
                (format_step (default "has invalid format" message)
                   (pat match_)) text_thrown)
      with (fields := fields) (a := (cs, lastIndex match_))
      as (e & [thrown ->] & H);
      [misuse_format_step|misuse_format_step|exact Hw|].
    exists thrown. rewrite H. reflexivity.
  - intros Hall.
    assert (R : exists cs', format message fields match_ cs = Ok cs').
    { unfold format, format_run.
      destruct (reduce_returns fst format_type
                  (format_step (default "has invalid format" message)
                     (pat match_)))
        with (fields := fields) (a := (cs, lastIndex match_))
        as (final & H);
        [misuse_format_step|exact Hall|].
      exists (fst final). rewrite H. reflexivity. }
    destruct R as [cs' H].
    exists cs'. split; [exact H|].
    split; [apply (apply_inflates (Format message fields match_)), H|].
    apply (apply_keeps_changes (Format message fields match_) _ _ I H).
Qed.

Lemma type_misuse_throws_witness :
  (exists thrown : string,
     length None (num 5) (num 100) ["title"] (pending "title" (VNum (num 7)))
       = Throw thrown) /\
  (exists cs',
     length None (num 5) (num 100) ["title"] (pending "title" (VStr "abc"))
       = Ok cs' /\
     appended (pending "title" (VStr "abc")) cs' /\
     changes cs' = changes (pending "title" (VStr "abc"))) /\
  (exists thrown : string,
     acceptance None ["rules"] (pending "rules" (VStr "yes")) = Throw thrown) /\
  (exists cs',
     acceptance None ["rules"] (pending "rules" (VBool false)) = Ok cs' /\
     appended (pending "rules" (VBool false)) cs' /\
     changes cs' = changes (pending "rules" (VBool false))) /\
  (exists thrown : string,
     format None ["email"] at_sign (pending "email" (VNum (num 7)))
       = Throw thrown) /\
  (exists cs',
     format None ["email"] at_sign (pending "email" (VStr "abc")) = Ok cs' /\
     appended (pending "email" (VStr "abc")) cs' /\
     changes cs' = changes (pending "email" (VStr "abc"))).
Proof.
  repeat split.
  - apply (type_misuse_throws ["title"] (pending "title" (VNum (num 7)))
             None None (num 5) (num 100) at_sign).
    exists "title". split; [left|]; reflexivity.
  - apply (type_misuse_throws ["title"] (pending "title" (VStr "abc"))
             None None (num 5) (num 100) at_sign).
    intros f [<-|[]]. reflexivity.
  - apply (type_misuse_throws ["rules"] (pending "rules" (VStr "yes"))
             None None (num 5) (num 100) at_sign).
    exists "rules". split; [left|]; reflexivity.
  - apply (type_misuse_throws ["rules"] (pending "rules" (VBool false))
             None None (num 5) (num 100) at_sign).
    intros f [<-|[]]. reflexivity.
  - apply (type_misuse_throws ["email"] (pending "email" (VNum (num 7)))
             None None (num 5) (num 100) at_sign).
    exists "email". split; [left|]; reflexivity.
  - apply (type_misuse_throws ["email"] (pending "email" (VStr "abc"))
             None None (num 5) (num 100) at_sign).
    intros f [<-|[]]. reflexivity.
Defined.

(** C6 as stated fails on arrays: with six items and [min: 2, max: 5] the
    appended message is "should have at most 5 items(s)", not "should be
    at most 5 items(s)".  It also fails on a string shorter than [min]
    and longer than [max], where the maximum message is the one kept. *)
Lemma length_array_message_differs :
  length None (num 2) (num 5) ["tags"] six_tags =
    Ok (putError "tags"
          {| message := "should have at most 5 items(s)";
             validation := "length";
             extra := [("min", AValue (VNum (num 2)));
                       ("max", AValue (VNum (num 5)))] |}
          six_tags) /\
  length None (num 2) (num 5) ["tags"] six_tags <>
    Ok (putError "tags"
          {| message := "should be at most 5 items(s)";
             validation := "length";
             extra := [("min", AValue (VNum (num 2)));
                       ("max", AValue (VNum (num 5)))] |}
          six_tags) /\
  length None (num 5) (num 2) ["name"] (pending "name" (VStr "abc")) =
    Ok (putError "name"
          {| message := "should be at most 2 character(s)";
             validation := "length";
             extra := [("min", AValue (VNum (num 5)));
                       ("max", AValue (VNum (num 2)))] |}
          (pending "name" (VStr "abc"))).
Proof.
  split; [vm_compute; reflexivity|].
  split; [|vm_compute; reflexivity].
  intros H.
  assert (E : length None (num 2) (num 5) ["tags"] six_tags =
    Ok (putError "tags"
          {| message := "should have at most 5 items(s)";
             validation := "length";
             extra := [("min", AValue (VNum (num 2)));
                       ("max", AValue (VNum (num 5)))] |}
          six_tags)) by (vm_compute; reflexivity).
  rewrite E in H.
  match type of H with
  | Ok ?x = Ok ?y => assert (H' : errorsOf "tags" x = errorsOf "tags" y)
                       by congruence
  end.
  rewrite !errorsOf_putError in H'. simpl in H'. discriminate H'.
Qed.

(** C6 amended: without a custom message, a pending string shorter than
    [min] and not longer than [max] gets the error tagged [length]
    carrying [min] and [max] with the message "should be at least {min}
    character(s)", and a pending array longer than [max] gets the message
    "should have at most {max} items(s)". *)
Theorem length_default_messages
    (f : string) (min max : number) (cs : Changeset.t) :
  (forall s,
     getChange f cs = (true, VStr s) ->
     num_ltb (length_of (VStr s)) min = true ->
     num_ltb max (length_of (VStr s)) = false ->
     length None min max [f] cs =
       Ok (putError f
             {| message :=
                  "should be at least " ++ number_to_string min
                  ++ " character(s)";
                validation := "length";
                extra := [("min", AValue (VNum min));
                          ("max", AValue (VNum max))] |}
             cs)) /\
  (forall r items,
     getChange f cs = (true, VArr r items) ->
     num_ltb max (length_of (VArr r items)) = true ->
     length None min max [f] cs =
       Ok (putError f
             {| message :=
                  "should have at most " ++ number_to_string max
                  ++ " items(s)";
                validation := "length";
                extra := [("min", AValue (VNum min));
                          ("max", AValue (VNum max))] |}
             cs)).
Proof.
  split.
  - intros s Hc Hmin Hmax.
    rewrite (length_found f None min max cs (VStr s) Hc eq_refl). simpl.
    unfold select_message. rewrite Hmin, Hmax.
    destruct (num_eqb min max && num_eqb min (length_of (VStr s)));
      reflexivity.
  - intros r items Hc Hmax.
    rewrite (length_found f None min max cs (VArr r items) Hc eq_refl). simpl.
    unfold select_message. rewrite Hmax. reflexivity.
Qed.

Lemma length_default_messages_witness :
  length None (num 3) (num 3) ["name"] (pending "name" (VStr "ab")) =
    Ok (putError "name"
          {| message := "should be at least 3 character(s)";
             validation := "length";
             extra := [("min", AValue (VNum (num 3)));
                       ("max", AValue (VNum (num 3)))] |}
          (pending "name" (VStr "ab"))) /\
  length None (num 2) (num 5) ["tags"] six_tags =
    Ok (putError "tags"
          {| message := "should have at most 5 items(s)";
             validation := "length";
             extra := [("min", AValue (VNum (num 2)));
                       ("max", AValue (VNum (num 5)))] |}
          six_tags).
Proof.
  split.
  - rewrite (proj1 (length_default_messages "name" (num 3) (num 3)
                      (pending "name" (VStr "ab"))) "ab");
      vm_compute; reflexivity.
  - rewrite (proj2 (length_default_messages "tags" (num 2) (num 5) six_tags)
               1%N [VStr "a"; VStr "b"; VStr "c"; VStr "d"; VStr "e"; VStr "f"]);
      vm_compute; reflexivity.
Defined.




(** C8: on a field with a pending change, [exclusion] appends an error
    (tag [exclusion], default message "is reserved") exactly when the
    value is [===] to some entry of [reserved], and [inclusion] appends
    an error (tag [inclusion], default message "is invalid") exactly when
    the value is [===] to no entry of [include]; [===] relates no two
    values of different types. *)
Theorem exclusion_inclusion_strict
    (f : string) (cs : Changeset.t) (v : value) (reserved include : list value) :
  getChange f cs = (true, v) ->
  let reserved_error :=
    {| message := "is reserved"; validation := "exclusion";
       extra := [("reserved", AValues reserved)] |} in
  let include_error :=
    {| message := "is invalid"; validation := "inclusion";
       extra := [("include", AValues include)] |} in
  ((exists x, In x reserved /\ strict_equal x v = true) ->
   exclusion None [f] reserved cs = Ok (putError f reserved_error cs) /\
   errorsOf f (putError f reserved_error cs)
     = (errorsOf f cs ++ [reserved_error])%list) /\
  ((forall x, In x reserved -> strict_equal x v = false) ->
   exclusion None [f] reserved cs = Ok cs) /\
  ((forall x, In x include -> strict_equal x v = false) ->
   inclusion None [f] include cs = Ok (putError f include_error cs) /\
   errorsOf f (putError f include_error cs)
     = (errorsOf f cs ++ [include_error])%list) /\
  ((exists x, In x include /\ strict_equal x v = true) ->
   inclusion None [f] include cs = Ok cs) /\
  (forall x, strict_equal x v = true -> typeof x = typeof v).
Proof.
  intros Hc reserved_error include_error.
  assert (none : forall l : list value,
             (forall x, In x l -> strict_equal x v = false) ->
             existsb (fun x => strict_equal x v) l = false).
  { intros l Hl. destruct (existsb _ l) eqn:E; [|reflexivity].
    apply existsb_strict_equal in E as (x & Hin & Hx).
    rewrite (Hl x Hin) in Hx. discriminate. }
  unfold exclusion, inclusion. simpl. rewrite Hc. simpl.
  split.
  { intros Hex. apply existsb_strict_equal in Hex. rewrite Hex. simpl.
    split; [reflexivity|apply errorsOf_putError]. }
  split.
  { intros Hall. rewrite (none _ Hall). reflexivity. }
  split.
  { intros Hall. rewrite (none _ Hall).
    split; [reflexivity|apply errorsOf_putError]. }
  split.
  { intros Hex. apply existsb_strict_equal in Hex. rewrite Hex. reflexivity. }
  intros x. apply strict_equal_same_type.
Qed.

Lemma exclusion_inclusion_strict_witness :
  inclusion None ["role"] [VStr "admin"; VStr "user"]
    (pending "role" (VStr "guest")) =
    Ok (putError "role"
          {| message := "is invalid"; validation := "inclusion";
             extra := [("include", AValues [VStr "admin"; VStr "user"])] |}
          (pending "role" (VStr "guest"))) /\
  inclusion None ["role"] [VStr "admin"; VStr "user"]
    (pending "role" (VStr "admin")) = Ok (pending "role" (VStr "admin")) /\
  exclusion None ["role"] [VStr "admin"; VNum (num 1)]
    (pending "role" (VStr "admin")) =
    Ok (putError "role"
          {| message := "is reserved"; validation := "exclusion";
             extra := [("reserved", AValues [VStr "admin"; VNum (num 1)])] |}
          (pending "role" (VStr "admin"))) /\
  exclusion None ["role"] [VStr "admin"; VNum (num 1)]
    (pending "role" (VStr "1")) = Ok (pending "role" (VStr "1")).
Proof.
  split.
  { apply (exclusion_inclusion_strict "role" (pending "role" (VStr "guest"))
             (VStr "guest") [] [VStr "admin"; VStr "user"] eq_refl).
    intros x [<-|[<-|[]]]; reflexivity. }
  split.
  { apply (exclusion_inclusion_strict "role" (pending "role" (VStr "admin"))
             (VStr "admin") [] [VStr "admin"; VStr "user"] eq_refl).
    exists (VStr "admin"). split; [left|]; reflexivity. }
  split.
  { apply (exclusion_inclusion_strict "role" (pending "role" (VStr "admin"))
             (VStr "admin") [VStr "admin"; VNum (num 1)] [] eq_refl).
    exists (VStr "admin"). split; [left|]; reflexivity. }
  apply (exclusion_inclusion_strict "role" (pending "role" (VStr "1"))
           (VStr "1") [VStr "admin"; VNum (num 1)] [] eq_refl).
  intros x [<-|[<-|[]]]; reflexivity.
Defined.

(** C9 as stated fails for [format] with a sticky expression, whose
    [lastIndex] the first application moves.  With [/a/y] and the pending
    change ["ab"], the first application finds the match at index 0 and
    returns the changeset with no error appended; the same options
    applied again look for the match at index 1 and append an error. *)
Lemma format_sticky_not_idempotent :
  apply (Format None ["name"] sticky_a) (pending "name" (VStr "ab"))
    = Ok (pending "name" (VStr "ab")) /\
  after (Format None ["name"] sticky_a) (pending "name" (VStr "ab"))
    = Format None ["name"] {| pat := pat sticky_a; lastIndex := 1 |} /\
  apply (after (Format None ["name"] sticky_a) (pending "name" (VStr "ab")))
    (pending "name" (VStr "ab"))
    = Ok (putError "name" (format_error None (pat sticky_a))
            (pending "name" (VStr "ab"))) /\
  apply (after (Format None ["name"] sticky_a) (pending "name" (VStr "ab")))
    (pending "name" (VStr "ab"))
    <> Ok (pending "name" (VStr "ab")).
Proof.
  assert (H : apply (after (Format None ["name"] sticky_a)
                       (pending "name" (VStr "ab")))
                (pending "name" (VStr "ab"))
              = Ok (putError "name" (format_error None (pat sticky_a))
                      (pending "name" (VStr "ab"))))
    by (vm_compute; reflexivity).
  split; [vm_compute; reflexivity|]. split; [vm_compute; reflexivity|].
  split; [exact H|]. rewrite H. intros E.
  match type of E with
  | Ok ?x = Ok ?y => assert (E' : x = y) by congruence
  end.
  exact (putError_changed _ _ _ E').
Qed.

(** C9 amended: for every validator of the library but [format] with a
    sticky expression, if one application returns a changeset with the
    error mapping it received, a second application with the same
    options, as the first one left them, returns that changeset again,
    with no error added and the data and the changes as they were. *)
Theorem validators_idempotent (b : bound) (cs cs' : Changeset.t) :
  stateless b = true ->
  apply b cs = Ok cs' ->
  errors cs' = errors cs ->
  apply (after b cs) cs' = Ok cs' /\
  apply b cs' = Ok cs' /\
  errors cs' = errors cs /\ data cs' = data cs /\ changes cs' = changes cs.
Proof.
  intros Hs H He.
  destruct (apply_inflates b cs cs' H) as [_ Hfix].
  assert (cs' = cs) as -> by (apply Hfix, He).
  repeat split; [|exact H].
  destruct b; try exact H.
  simpl in *. apply negb_true_iff in Hs.
  rewrite format_stateless in H by exact Hs.
  rewrite format_stateless by (rewrite pat_format_after; exact Hs).
  rewrite pat_format_after. exact H.
Qed.

Lemma validators_idempotent_witness :
  apply (after (Required ["title"] None) (pending "title" (VStr "Dune")))
    (pending "title" (VStr "Dune"))
    = Ok (pending "title" (VStr "Dune")) /\
  apply (after (Format None ["email"] at_sign)
           (pending "email" (VStr "a@b.com")))
    (pending "email" (VStr "a@b.com"))
    = Ok (pending "email" (VStr "a@b.com")).
Proof.
  split.
  - apply (validators_idempotent (Required ["title"] None)
             (pending "title" (VStr "Dune")) (pending "title" (VStr "Dune")));
      reflexivity.
  - apply (validators_idempotent (Format None ["email"] at_sign)
             (pending "email" (VStr "a@b.com"))
             (pending "email" (VStr "a@b.com")));
      vm_compute; reflexivity.
Defined.

(** C10: a changeset returned by a validator has the data of the input,
    and its error mapping is that of the input with descriptors appended;
    every validator but [required] also returns the changes untouched,
    and [required] changes them only by writing [null] on fields of its
    list that it flagged with an error. *)
Theorem validators_frame (b : bound) (cs cs' : Changeset.t) :
  apply b cs = Ok cs' ->
  data cs' = data cs /\
  (forall g,
     errors cs' !! g = errors cs !! g \/
     exists new, new <> [] /\
       errors cs' !! g = Some (errorsOf g cs ++ new)%list) /\
  match b with
  | Required fields _ =>
      forall g,
        changes cs' !! g = changes cs !! g \/
        (In g fields /\ changes cs' !! g = Some VNull /\
         (List.length (errorsOf g cs) < List.length (errorsOf g cs'))%nat)
  | _ => changes cs' = changes cs
  end.
Proof.
  intros H. destruct (apply_inflates b cs cs' H) as [[D E] _].
  split; [exact D|]. split; [exact E|].
  destruct b;
    try (match type of H with
         | apply ?b _ = _ => exact (apply_keeps_changes b cs cs' I H)
         end).
  exact (required_changes _ _ _ _ H).
Qed.

Lemma validators_frame_witness :
  data (putChange "title" VNull
          (putError "title"
             {| message := "can't be blank"; validation := "required";
                extra := [] |} empty_changeset))
    = data empty_changeset /\
  changes (putError "age"
             {| message := "must be greater than 18";
                validation := "greater than";
                extra := [("number", AValue (VNum (num 18)))] |}
             (pending "age" (VNum (num 18))))
    = changes (pending "age" (VNum (num 18))).
Proof.
  split.
  - apply (validators_frame (Required ["title"] None) empty_changeset).
    reflexivity.
  - apply (validators_frame (GreaterThan None (num 18) ["age"])
             (pending "age" (VNum (num 18)))).
    vm_compute. reflexivity.
Defined.

(** ** Further properties of the validators *)

(** *** Facts about [reduce] *)

Section Reduce.

Context {A B : Type}.
Variable step : A -> B -> result A.

Lemma reduce_app (l1 l2 : list B) (init : A) :
  reduce step (l1 ++ l2)%list init =
    pipeline (reduce step l1) (reduce step l2) init.
Proof.
  unfold pipeline. revert init.
  induction l1 as [|x l1 IH]; intros init; simpl; [reflexivity|].
  destruct (step init x) as [a|e]; [apply IH|reflexivity].
Qed.

(** Steps that all return the accumulator leave it as it is. *)
Lemma reduce_fixed (l : list B) (init : A) :
  (forall x, In x l -> step init x = Ok init) -> reduce step l init = Ok init.
Proof.
  induction l as [|x l IH]; intros H; simpl; [reflexivity|].
  rewrite (H x (or_introl eq_refl)). apply IH. intros y Hy. apply H. right.
  exact Hy.
Qed.

End Reduce.

(** *** Splitting the list of fields *)

Lemma apply_app (b : bound) (l1 l2 : list string) (cs : Changeset.t) :
  apply (with_fields b (l1 ++ l2)) cs =
    pipeline (apply (with_fields b l1))
      (apply (with_fields (after (with_fields b l1) cs) l2)) cs.
Proof.
  destruct b; simpl;
    unfold required, length, acceptance, change, confirmation, exclusion,
      inclusion, lessThan, greaterThan, lessThanOrEqualTo,
      greaterThanOrEqualTo, equalTo;
    try apply reduce_app.
  unfold pipeline, format, format_after, format_run.
  rewrite reduce_app. unfold pipeline.
  destruct (reduce _ l1 (cs, lastIndex match_)) as [[c1 li1]|]; reflexivity.
Qed.

(** With an expression that is not sticky, what earlier calls left in
    the options does not matter. *)
Lemma apply_after (b : bound) (l1 l2 : list string) (cs c1 : Changeset.t) :
  stateless b = true ->
  apply (with_fields (after (with_fields b l1) cs) l2) c1
  = apply (with_fields b l2) c1.
Proof.
  destruct b; try reflexivity. simpl. intros Hs. apply negb_true_iff in Hs.
  rewrite !format_stateless by (rewrite ?pat_format_after; exact Hs).
  rewrite pat_format_after. reflexivity.
Qed.

(** X1: validating the fields [l1 ++ l2] in one call is validating [l1] and
    then [l2] with the same validator and the same options, as the first
    call left them, throws included.  The first call leaves the options
    as they were, unless the validator is [format] with a sticky
    expression. *)
Theorem fields_split (b : bound) (l1 l2 : list string) (cs : Changeset.t) :
  apply (with_fields b (l1 ++ l2)) cs =
    pipeline (apply (with_fields b l1))
      (apply (with_fields (after (with_fields b l1) cs) l2)) cs /\
  (stateless b = true ->
   apply (with_fields b (l1 ++ l2)) cs =
     pipeline (apply (with_fields b l1)) (apply (with_fields b l2)) cs).
Proof.
  split; [apply apply_app|]. intros Hs. rewrite apply_app. unfold pipeline.
  destruct (apply (with_fields b l1) cs) as [c1|]; [|reflexivity].
  apply apply_after, Hs.
Qed.

(** *** Fields without a pending change *)

Lemma format_absent message fields (match_ : regexp) (cs : Changeset.t) :
  (forall f, In f fields -> fst (getChange f cs) = false) ->
  format message fields match_ cs = Ok cs.
Proof.
  intros Habs. unfold format, format_run.
  rewrite reduce_fixed; [reflexivity|].
  intros f Hf. specialize (Habs f Hf). unfold format_step.
  destruct (getChange f cs) as [[|] v]; simpl in *;
    [discriminate|reflexivity].
Qed.

(** X2: every validator but [required] returns the changeset it received,
    without throwing, when none of the fields it reads has a pending
    change: there is no fallback to the persisted data. *)
Theorem absent_fields_pass (b : bound) (cs : Changeset.t) :
  match b with Required _ _ => False | _ => True end ->
  (forall f, In f (read_fields b) -> fst (getChange f cs) = false) ->
  apply b cs = Ok cs.
Proof.
  destruct b; simpl; intros Hb Habs; try contradiction;
    try (apply format_absent; exact Habs);
    unfold length, acceptance, change, confirmation, exclusion,
      inclusion, lessThan, greaterThan, lessThanOrEqualTo,
      greaterThanOrEqualTo, equalTo;
    apply reduce_fixed; intros f Hf;
    try (specialize (Habs f Hf);
         destruct (getChange f cs) as [[|] v]; simpl in *;
         [discriminate|reflexivity]).
  pose proof (Habs f (in_or_app _ _ _ (or_introl Hf))) as H1.
  pose proof (Habs (f ++ "Confirmation")
                (in_or_app _ _ _
                   (or_intror (in_map (fun f => f ++ "Confirmation") _ _ Hf))))
    as H2.
  destruct (getChange f cs) as [[|] v]; simpl in H1; [discriminate|].
  destruct (getChange (f ++ "Confirmation") cs) as [[|] c]; simpl in H2;
    [discriminate|reflexivity].
Qed.

(** A changeset with persisted data and no pending change. *)
Lemma absent_fields_pass_witness :
  apply (Length None (num 5) (num 100) ["title"; "body"])
    {| data := {[ "title" := VNum (num 7) ]}; changes := ∅; errors := ∅ |}
  = Ok {| data := {[ "title" := VNum (num 7) ]}; changes := ∅; errors := ∅ |}.
Proof.
  apply (absent_fields_pass (Length None (num 5) (num 100) ["title"; "body"]));
    [exact I|].
  intros f [<-|[<-|[]]]; reflexivity.
Defined.

(** *** The comparisons and the values they cannot convert *)

Section Operators.

Implicit Types (v p : value) (N : number) (e : exn).

(** A conversion to a string only throws a [TypeError]. *)
Lemma to_string_throws : forall v e, to_string v = Throw e -> e = TypeError.
Proof.
  fix IH 1. intros v e. destruct v as [| |b|n|s|r items|r props];
    try discriminate.
  - unfold to_string; fold to_string.
    match goal with
    | |- bind (?elements items) _ = _ -> _ => set (go := elements)
    end.
    assert (G : forall e', go items = Throw e' -> e' = TypeError).
    { induction items as [|x l IHl]; intros e' H; [discriminate H|].
      unfold go in H; fold go in H.
      pose proof (IH x) as IHx.
      destruct x; simpl in H;
        try (destruct (go l) eqn:Hl; simpl in H;
             [discriminate H|injection H as <-; eapply IHl; reflexivity]);
        match type of H with
        | bind (to_string ?y) _ = _ =>
            destruct (to_string y) eqn:Hx; simpl in H;
            [ destruct (go l) eqn:Hl; simpl in H;
              [discriminate H|injection H as <-; eapply IHl; reflexivity]
            | injection H as <-; eapply IHx; reflexivity ]
        end. }
    destruct (go items) eqn:Hg; simpl; [discriminate|].
    intros H. injection H as <-. eapply G. reflexivity.
  - unfold to_string. destruct (has_own "toString" props); [|discriminate].
    intros H. injection H as <-. reflexivity.
Qed.

Lemma to_primitive_throws v e : to_primitive v = Throw e -> e = TypeError.
Proof.
  destruct v; try discriminate; unfold to_primitive;
    match goal with
    | |- bind (to_string ?x) _ = _ -> _ =>
        destruct (to_string x) eqn:H; simpl; [discriminate|];
        intros E; injection E as <-; eapply to_string_throws, H
    end.
Qed.

(** A value converts to a primitive exactly when it converts to a
    string. *)
Lemma convertible_to_string v :
  convertible v = match to_string v with Ok _ => true | Throw _ => false end.
Proof.
  unfold convertible.
  destruct v; try reflexivity; unfold to_primitive;
    match goal with
    | |- context [to_string ?x] => destruct (to_string x); reflexivity
    end.
Qed.

(** An array converts when each of its items does, [null] and
    [undefined] apart, which [join] does not convert. *)
Lemma convertible_array (r : ref) (items : list value) :
  convertible (VArr r items)
  = forallb (fun x => is_nullish x || convertible x) items.
Proof.
  rewrite convertible_to_string. unfold to_string; fold to_string.
  match goal with
  | |- context [bind (?elements items) _] => set (go := elements)
  end.
  assert (G : match go items with Ok _ => true | Throw _ => false end
              = forallb (fun x => is_nullish x || convertible x) items).
  { induction items as [|x l IHl]; [reflexivity|].
    unfold go; fold go. cbn [forallb]. rewrite <- IHl.
    rewrite (convertible_to_string x).
    destruct x; simpl;
      try (destruct (go l); reflexivity);
      match goal with
      | |- context [to_string ?y] =>
          destruct (to_string y); simpl; [destruct (go l)|]; reflexivity
      end. }
  rewrite <- G. destruct (go items); reflexivity.
Qed.

(** The operators with a number on the right. *)
Lemma less_than_number v N :
  less_than v (VNum N)
  = let* p := to_primitive v in Ok (primitive_ltb p (VNum N)).
Proof. reflexivity. Qed.

Lemma greater_than_number v N :
  greater_than v (VNum N)
  = let* p := to_primitive v in Ok (primitive_ltb (VNum N) p).
Proof. reflexivity. Qed.

Lemma less_equal_number v N :
  less_equal v (VNum N)
  = let* p := to_primitive v in Ok (primitive_leb p (VNum N)).
Proof. reflexivity. Qed.

Lemma greater_equal_number v N :
  greater_equal v (VNum N)
  = let* p := to_primitive v in Ok (primitive_leb (VNum N) p).
Proof. reflexivity. Qed.

Lemma loose_equal_number v N :
  is_nullish v = false ->
  loose_equal v (VNum N)
  = let* p := to_primitive v in Ok (primitive_eqb p (VNum N)).
Proof.
  intros Hn. unfold loose_equal. rewrite andb_false_r, orb_false_r, Hn.
  reflexivity.
Qed.

(** A value that was found is neither [null] nor [undefined]. *)
Lemma getChange_found f (cs : Changeset.t) v :
  getChange f cs = (true, v) -> is_nullish v = false.
Proof. intros H. apply (read_found f (changes cs) v H). Qed.

End Operators.

(** One step of a comparison, by cases on the conversion of the pending
    change. *)
Ltac comparison_step :=
  let H := fresh "H" in
  let Hc := fresh "Hc" in
  let Hp := fresh "Hp" in
  let c := fresh "c" in
  let g := fresh "g" in
  let v := fresh "v" in
  intros c g H; unfold wrong_type, convertible in H; cbv beta in H |- *;
  simpl; destruct (getChange g c) as [[|] v] eqn:Hc; simpl in H |- *;
  [ rewrite ?less_than_number, ?greater_than_number, ?less_equal_number,
      ?greater_equal_number,
      ?(loose_equal_number v _ (getChange_found g c v Hc));
    destruct (to_primitive v) as [?|?] eqn:Hp; simpl in H |- *;
    first [ discriminate H
          | rewrite (to_primitive_throws _ _ Hp); eauto
          | match goal with
            | |- context [if ?b then _ else _] => destruct b
            end; eauto ]
  | first [ discriminate H | eauto ] ].

(** X3: the five comparisons throw a [TypeError] as soon as a listed
    field has a pending change that the operator cannot convert to a
    primitive, and return a changeset when every listed pending change
    converts.  A number, a string and a boolean always convert; a plain
    object of data converts unless it has a property [toString] of its
    own, which is then no function; an array converts when its items do,
    [null] and [undefined] apart. *)
Theorem comparisons_throw_on_unconvertible
    (fields : list string) (cs : Changeset.t) (message : option string)
    (N : number) :
  ((exists f, In f fields /\ wrong_type convertible f cs = true) ->
   lessThan message N fields cs = Throw TypeError /\
   greaterThan message N fields cs = Throw TypeError /\
   lessThanOrEqualTo message N fields cs = Throw TypeError /\
   greaterThanOrEqualTo message N fields cs = Throw TypeError /\
   equalTo message N fields cs = Throw TypeError) /\
  ((forall f, In f fields -> wrong_type convertible f cs = false) ->
   (exists cs', lessThan message N fields cs = Ok cs') /\
   (exists cs', greaterThan message N fields cs = Ok cs') /\
   (exists cs', lessThanOrEqualTo message N fields cs = Ok cs') /\
   (exists cs', greaterThanOrEqualTo message N fields cs = Ok cs') /\
   (exists cs', equalTo message N fields cs = Ok cs')) /\
  (forall v, scalar v = true -> convertible v = true) /\
  (forall r props,
     convertible (VObj r props) = negb (has_own "toString" props)) /\
  (forall r items,
     convertible (VArr r items)
     = forallb (fun x => is_nullish x || convertible x) items).
Proof.
  split; [|split; [|split; [|split]]]; [| | | |apply convertible_array].
  - intros Hw.
    assert (T : forall step,
      (forall c g, wrong_type convertible g c = true ->
         exists e, e = TypeError /\ step c g = Throw e) ->
      (forall c g, wrong_type convertible g c = false ->
         exists c1, step c g = Ok c1 /\ changes c1 = changes c) ->
      reduce step fields cs = Throw TypeError).
    { intros step Ht Hr.
      destruct (reduce_throws (fun c => c) convertible step
                  (fun e => e = TypeError) Ht Hr fields cs Hw)
        as (e & -> & H). exact H. }
    unfold lessThan, greaterThan, lessThanOrEqualTo, greaterThanOrEqualTo,
      equalTo.
    repeat split; apply T; comparison_step.
  - intros Hall.
    unfold lessThan, greaterThan, lessThanOrEqualTo, greaterThanOrEqualTo,
      equalTo.
    repeat split;
      apply (reduce_returns (fun c => c) convertible);
      first [comparison_step|exact Hall].
  - intros v Hv. destruct v; try discriminate Hv; reflexivity.
  - intros r props. unfold convertible, to_primitive, to_string.
    destruct (has_own "toString" props); reflexivity.
Qed.

Lemma comparisons_throw_on_unconvertible_witness :
  lessThan None (num 18) ["name"; "age"] (pending "age" shadowed)
    = Throw TypeError /\
  greaterThan None (num 18) ["name"; "age"] (pending "age" shadowed)
    = Throw TypeError /\
  lessThanOrEqualTo None (num 18) ["name"; "age"] (pending "age" shadowed)
    = Throw TypeError /\
  greaterThanOrEqualTo None (num 18) ["name"; "age"] (pending "age" shadowed)
    = Throw TypeError /\
  equalTo None (num 18) ["name"; "age"] (pending "age" shadowed)
    = Throw TypeError.
Proof.
  apply (comparisons_throw_on_unconvertible ["name"; "age"]
           (pending "age" shadowed) None (num 18)).
  exists "age". split; [right; left; reflexivity|reflexivity].
Defined.

(** *** The order of the fields *)

Section Commutation.

Implicit Types (cs : Changeset.t) (f g : string) (e : error) (v : value).

Lemma getChange_putChange_ne f g v cs :
  f <> g -> getChange g (putChange f v cs) = getChange g cs.
Proof.
  intros Hne. unfold getChange, read. simpl.
  rewrite lookup_insert_ne by exact Hne. reflexivity.
Qed.

Lemma changes_putErrors f (l : list error) cs :
  changes (putErrors f l cs) = changes cs.
Proof. apply appended_fold. Qed.

Lemma data_putErrors f (l : list error) cs :
  data (putErrors f l cs) = data cs.
Proof. apply (appended_fold f l cs). Qed.

Lemma getChange_putErrors f g (l : list error) cs :
  getChange g (putErrors f l cs) = getChange g cs.
Proof. unfold getChange. rewrite changes_putErrors. reflexivity. Qed.

Lemma getField_putErrors f g (l : list error) cs :
  getField g (putErrors f l cs) = getField g cs.
Proof. unfold getField. rewrite data_putErrors. reflexivity. Qed.

Lemma getChange_amend f g (l : list error) n cs :
  f <> g -> getChange g (amend f l n cs) = getChange g cs.
Proof.
  intros Hne. unfold amend. destruct n.
  - rewrite getChange_putChange_ne by exact Hne. apply getChange_putErrors.
  - apply getChange_putErrors.
Qed.

Lemma getField_amend f g (l : list error) n cs :
  getField g (amend f l n cs) = getField g cs.
Proof.
  unfold amend. destruct n; [change (getField g (putChange f VNull ?c))
                              with (getField g c)|]; apply getField_putErrors.
Qed.

Lemma putError_comm f g e e' cs :
  f <> g -> putError f e (putError g e' cs) = putError g e' (putError f e cs).
Proof.
  intros Hne. unfold putError at 1 3. simpl. f_equal.
  rewrite (errorsOf_putError_ne g f e' cs) by congruence.
  rewrite (errorsOf_putError_ne f g e cs) by exact Hne.
  apply insert_insert_ne. exact Hne.
Qed.

Lemma putError_putErrors_comm f g e (l : list error) cs :
  f <> g -> putError f e (putErrors g l cs) = putErrors g l (putError f e cs).
Proof.
  intros Hne. revert cs. induction l as [|e' l IH]; intros cs; simpl.
  - reflexivity.
  - unfold putErrors in *. simpl. rewrite IH.
    rewrite (putError_comm f g e e' cs Hne). reflexivity.
Qed.

Lemma putErrors_comm f g (l l' : list error) cs :
  f <> g ->
  putErrors f l (putErrors g l' cs) = putErrors g l' (putErrors f l cs).
Proof.
  intros Hne. revert cs. induction l as [|e l IH]; intros cs.
  - reflexivity.
  - unfold putErrors at 1 4. simpl. fold (putErrors g l' cs).
    rewrite (putError_putErrors_comm f g e l' cs Hne).
    apply IH.
Qed.

Lemma putChange_putErrors_comm f g v (l : list error) cs :
  putChange f v (putErrors g l cs) = putErrors g l (putChange f v cs).
Proof.
  revert cs. induction l as [|e l IH]; intros cs; [reflexivity|].
  unfold putErrors in *. simpl. rewrite IH. reflexivity.
Qed.

Lemma putChange_comm f g v w cs :
  f <> g ->
  putChange f v (putChange g w cs) = putChange g w (putChange f v cs).
Proof.
  intros Hne. unfold putChange. simpl. f_equal.
  apply insert_insert_ne. exact Hne.
Qed.

(** Amendments of two different fields commute. *)
Lemma amend_comm f g (l l' : list error) n n' cs :
  f <> g ->
  amend f l n (amend g l' n' cs) = amend g l' n' (amend f l n cs).
Proof.
  intros Hne. unfold amend. destruct n, n';
    rewrite <- ?putChange_putErrors_comm;
    rewrite (putErrors_comm f g l l' cs Hne);
    try reflexivity.
  rewrite (putChange_comm f g VNull VNull _ Hne). reflexivity.
Qed.

End Commutation.

Section Locality.

Variable step : Changeset.t -> string -> result Changeset.t.
Variable may_null : bool.

(** A step amends the field it is given, and nothing else. *)
Hypothesis shape : forall cs f c1,
  step cs f = Ok c1 ->
  exists l n, (n = true -> may_null = true) /\ c1 = amend f l n cs.

(** A step decides alike before and after an amendment of another field. *)
Hypothesis local : forall cs f g l n,
  g <> f -> (n = true -> may_null = true) ->
  step (amend g l n cs) f =
    match step cs f with
    | Ok c => Ok (amend g l n c)
    | Throw t => Throw t
    end.

Lemma step_commutes cs f g c1 c2 :
  f <> g -> step cs f = Ok c1 -> step c1 g = Ok c2 ->
  exists c1', step cs g = Ok c1' /\ step c1' f = Ok c2.
Proof.
  intros Hne Hf Hg.
  destruct (shape _ _ _ Hf) as (l & n & Hn & ->).
  rewrite (local cs g f l n Hne Hn) in Hg.
  destruct (step cs g) as [c1'|] eqn:Hg'; [|discriminate].
  injection Hg as <-. exists c1'. split; [reflexivity|].
  destruct (shape _ _ _ Hg') as (l' & n' & Hn' & ->).
  rewrite (local cs f g l' n' ltac:(congruence) Hn'), Hf.
  f_equal. symmetry. apply amend_comm. exact Hne.
Qed.

(** The reducer returns the same changeset for every order of the list. *)
Lemma reduce_permutation (l l' : list string) :
  Permutation l l' ->
  forall cs cs', reduce step l cs = Ok cs' -> reduce step l' cs = Ok cs'.
Proof.
  induction 1 as [|x l l' _ IH|x y l|l l' l'' _ IH1 _ IH2]; intros cs cs' H.
  - exact H.
  - simpl in *. destruct (step cs x) as [c1|]; [|discriminate].
    apply IH. exact H.
  - simpl in *. destruct (decide (x = y)) as [->|Hne]; [exact H|].
    destruct (step cs y) as [c1|] eqn:Hy; [|discriminate].
    destruct (step c1 x) as [c2|] eqn:Hx; [|discriminate].
    destruct (step_commutes cs y x c1 c2 ltac:(congruence) Hy Hx)
      as (c1' & -> & ->).
    exact H.
  - apply IH2, IH1, H.
Qed.

End Locality.

(** The shape of what a step returned. *)
Ltac step_shape :=
  let H := fresh "H" in
  intros ? ? ? H; step_cases H;
  first
    [ exists [], false; split; [discriminate|reflexivity]
    | match goal with
      | |- exists l n, _ /\ putError _ ?e _ = _ =>
          exists [e], false; split; [discriminate|reflexivity]
      | |- exists l n, _ /\ pipe (putError _ ?e) _ _ = _ =>
          exists [e], true; split; reflexivity
      | |- exists l n, _ /\ fold_left _ ?errs _ = _ =>
          exists errs, false; split; [discriminate|reflexivity]
      end ].

(** A step after an amendment of another field, by cases on what it
    reads. *)
Ltac step_local :=
  let c := fresh "c" in
  let f := fresh "f" in
  let g := fresh "g" in
  let l := fresh "l" in
  let n := fresh "n" in
  let Hne := fresh "Hne" in
  let Hn := fresh "Hn" in
  intros c f g l n Hne Hn; cbv beta;
  first
    [ destruct n; [discriminate (Hn eq_refl)|];
      unfold amend; cbv iota;
      rewrite ?getChange_putErrors, ?getField_putErrors
    | rewrite ?(getChange_amend _ _ _ _ _ Hne), ?getField_amend ];
  repeat match goal with
         | |- context [getChange ?f ?cs] =>
             destruct (getChange f cs) as [[|] ?]; simpl
         | |- context [getField ?f ?cs] =>
             destruct (getField f cs) as [[|] ?]; simpl
         | |- context [select_message ?a ?b ?c ?d] =>
             destruct (select_message a b c d); simpl
         | |- context [bind ?r _] => destruct r; simpl
         | |- context [if ?b then _ else _] => destruct b; simpl
         end;
  try reflexivity;
  f_equal;
  first [ exact (amend_comm _ _ [_] _ false false _ (not_eq_sym Hne))
        | exact (amend_comm _ _ [_] _ true _ _ (not_eq_sym Hne))
        | exact (amend_comm _ _ _ _ false false _ (not_eq_sym Hne)) ].

Lemma apply_permutation
    (b : bound) (l l' : list string) (cs cs' : Changeset.t) :
  stateless b = true ->
  Permutation l l' ->
  apply (with_fields b l) cs = Ok cs' ->
  apply (with_fields b l') cs = Ok cs'.
Proof.
  intros Hs Hp. destruct b; simpl in Hs |- *;
    try (apply negb_true_iff in Hs; rewrite !format_stateless by exact Hs);
    unfold required, length, acceptance, change, confirmation, exclusion,
      inclusion, format_stateless_step, lessThan, greaterThan,
      lessThanOrEqualTo, greaterThanOrEqualTo, equalTo.
  1: apply (reduce_permutation _ true); [step_shape|step_local|exact Hp].
  all: apply (reduce_permutation _ false); [step_shape|step_local|exact Hp].
Qed.

(** X4: the order of the listed fields does not matter, for every
    validator but [format] with a sticky expression, whose matches depend
    on the fields seen before.  If the validator returns a changeset for
    a list of fields, it returns the same changeset for every
    rearrangement of the list. *)
Theorem fields_order_irrelevant
    (b : bound) (l l' : list string) (cs cs' : Changeset.t) :
  stateless b = true ->
  Permutation l l' ->
  apply (with_fields b l) cs = Ok cs' ->
  apply (with_fields b l') cs = Ok cs'.
Proof. apply apply_permutation. Qed.

Lemma fields_order_irrelevant_witness :
  apply (with_fields (Required [] None) ["body"; "title"]) empty_changeset =
    Ok (putChange "body" VNull
          (putError "body"
             {| message := "can't be blank"; validation := "required";
                extra := [] |}
             (putChange "title" VNull
                (putError "title"
                   {| message := "can't be blank"; validation := "required";
                      extra := [] |}
                   empty_changeset)))).
Proof.
  apply (fields_order_irrelevant (Required [] None)
           ["title"; "body"] ["body"; "title"]);
    [reflexivity|apply perm_swap|reflexivity].
Defined.

(** *** The fields a validator touches *)

Section Amendments.

Implicit Types (cs : Changeset.t) (f g : string) (e : error) (v : value).

Lemma errorsOf_putErrors f (l : list error) cs :
  errorsOf f (putErrors f l cs) = (errorsOf f cs ++ l)%list.
Proof.
  revert cs. induction l as [|e l IH]; intros cs.
  - simpl. rewrite app_nil_r. reflexivity.
  - change (putErrors f (e :: l) cs) with (putErrors f l (putError f e cs)).
    rewrite IH, errorsOf_putError, <- app_assoc. reflexivity.
Qed.

Lemma errors_putErrors_ne f g (l : list error) cs :
  f <> g -> errors (putErrors f l cs) !! g = errors cs !! g.
Proof.
  intros Hne. revert cs. induction l as [|e l IH]; intros cs; [reflexivity|].
  change (putErrors f (e :: l) cs) with (putErrors f l (putError f e cs)).
  rewrite IH. simpl. apply lookup_insert_ne. exact Hne.
Qed.

Lemma errorsOf_amend f (l : list error) n cs :
  errorsOf f (amend f l n cs) = (errorsOf f cs ++ l)%list.
Proof. unfold amend. destruct n; apply errorsOf_putErrors. Qed.

Lemma errors_amend_ne f g (l : list error) n cs :
  f <> g -> errors (amend f l n cs) !! g = errors cs !! g.
Proof.
  intros Hne. unfold amend. destruct n; simpl;
    apply errors_putErrors_ne; exact Hne.
Qed.

Lemma errorsOf_amend_ne f g (l : list error) n cs :
  f <> g -> errorsOf g (amend f l n cs) = errorsOf g cs.
Proof.
  intros Hne. unfold errorsOf. rewrite errors_amend_ne by exact Hne.
  reflexivity.
Qed.

Lemma changes_amend_ne f g (l : list error) n cs :
  f <> g -> changes (amend f l n cs) !! g = changes cs !! g.
Proof.
  intros Hne. unfold amend. destruct n; simpl; rewrite changes_putErrors;
    [apply lookup_insert_ne; exact Hne|reflexivity].
Qed.

End Amendments.

Section Shape.

Variable R : Changeset.t -> string -> Changeset.t -> Prop.
Variable may_null : bool.

Hypothesis shape : forall cs f c1,
  R cs f c1 ->
  exists l n, (n = true -> may_null = true) /\ c1 = amend f l n cs.

(** Steps that amend their field leave the fields that are not in the
    list as they are. *)
Lemma folds_untouched (fields : list string) (cs cs' : Changeset.t) :
  folds R fields cs cs' ->
  forall g, ~ In g fields ->
    errors cs' !! g = errors cs !! g /\ changes cs' !! g = changes cs !! g.
Proof.
  intros H. induction H as [cs|f fields cs c1 cs' Hs _ IH]; intros g Hg.
  - split; reflexivity.
  - destruct (shape _ _ _ Hs) as (l & n & _ & ->).
    destruct (IH g) as [E C]; [intros Hin; apply Hg; right; exact Hin|].
    assert (Hne : f <> g) by (intros ->; apply Hg; left; reflexivity).
    rewrite E, C. split;
      [apply errors_amend_ne|apply changes_amend_ne]; exact Hne.
Qed.

End Shape.

(** The reducer leaves the fields that are not in its list as they are. *)
Lemma reduce_untouched (step : Changeset.t -> string -> result Changeset.t)
    (may_null : bool) :
  (forall cs f c1, step cs f = Ok c1 ->
     exists l n, (n = true -> may_null = true) /\ c1 = amend f l n cs) ->
  forall fields cs cs',
    reduce step fields cs = Ok cs' ->
    forall g, ~ In g fields ->
      errors cs' !! g = errors cs !! g /\ changes cs' !! g = changes cs !! g.
Proof.
  intros shape fields cs cs' H.
  exact (folds_untouched _ may_null shape _ _ _ (reduce_folds _ _ _ _ H)).
Qed.

(** The shape of a step of [format]. *)
Lemma format_may_shape message (p : pattern) cs f c1 :
  format_may message p cs f c1 ->
  exists l n, (n = true -> false = true) /\ c1 = amend f l n cs.
Proof.
  intros [->| ->].
  - exists [], false. split; [discriminate|reflexivity].
  - exists [format_error message p], false.
    split; [discriminate|reflexivity].
Qed.

Lemma apply_untouched (b : bound) (cs cs' : Changeset.t) (g : string) :
  apply b cs = Ok cs' ->
  ~ In g (fields_of b) ->
  errors cs' !! g = errors cs !! g /\ changes cs' !! g = changes cs !! g.
Proof.
  intros H Hg. revert H g Hg. destruct b; simpl;
    try (intros H; apply format_folds in H; revert H;
         apply (folds_untouched _ false), format_may_shape);
    unfold required, length, acceptance, change, confirmation, exclusion,
      inclusion, lessThan, greaterThan, lessThanOrEqualTo,
      greaterThanOrEqualTo, equalTo.
  1: apply (reduce_untouched _ true); step_shape.
  all: apply (reduce_untouched _ false); step_shape.
Qed.

(** X5: a validator leaves every field that is not in its list as it
    is: the error sequence and the pending change of such a field are
    those of the input. *)
Theorem unlisted_fields_untouched (b : bound) (cs cs' : Changeset.t) (g : string) :
  apply b cs = Ok cs' ->
  ~ In g (fields_of b) ->
  errors cs' !! g = errors cs !! g /\ changes cs' !! g = changes cs !! g.
Proof. apply apply_untouched. Qed.

Lemma unlisted_fields_untouched_witness :
  errors (putChange "title" VNull
            (putError "title"
               {| message := "can't be blank"; validation := "required";
                  extra := [] |} (pending "body" (VStr " ")))) !! "body"
    = errors (pending "body" (VStr " ")) !! "body" /\
  changes (putChange "title" VNull
             (putError "title"
                {| message := "can't be blank"; validation := "required";
                   extra := [] |} (pending "body" (VStr " ")))) !! "body"
    = changes (pending "body" (VStr " ")) !! "body".
Proof.
  apply (unlisted_fields_untouched (Required ["title"] None)
           (pending "body" (VStr " "))).
  - reflexivity.
  - intros [E|[]]. discriminate E.
Defined.

(** X6: what a validator does to a listed field does not depend on the
    other fields of the list, for every validator but [format] with a
    sticky expression.  When the fields are distinct and the validator
    returns, it also returns on each listed field alone, with the same
    error sequence and the same pending change for that field. *)
Theorem listed_fields_independent
    (b : bound) (fields : list string) (cs cs' : Changeset.t) (g : string) :
  stateless b = true ->
  List.NoDup fields ->
  In g fields ->
  apply (with_fields b fields) cs = Ok cs' ->
  exists c1,
    apply (with_fields b [g]) cs = Ok c1 /\
    errors cs' !! g = errors c1 !! g /\
    changes cs' !! g = changes c1 !! g.
Proof.
  intros Hs Hnd Hin H.
  destruct (in_split _ _ Hin) as (l1 & l2 & ->).
  apply List.NoDup_remove_2 in Hnd.
  assert (Hp : Permutation (l1 ++ g :: l2) (g :: (l1 ++ l2)))
    by (symmetry; apply Permutation_middle).
  pose proof (apply_permutation b _ _ cs cs' Hs Hp H) as H'.
  change (g :: (l1 ++ l2))%list with ([g] ++ (l1 ++ l2))%list in H'.
  rewrite apply_app in H'. unfold pipeline in H'.
  destruct (apply (with_fields b [g]) cs) as [c1|] eqn:H1; [|discriminate].
  exists c1. split; [reflexivity|].
  apply (apply_untouched _ c1 cs' g H').
  destruct b; exact Hnd.
Qed.

Lemma listed_fields_independent_witness :
  exists c1,
    apply (with_fields (Required [] None) ["body"]) empty_changeset = Ok c1 /\
    errors (putChange "body" VNull
              (putError "body"
                 {| message := "can't be blank"; validation := "required";
                    extra := [] |}
                 (putChange "title" VNull
                    (putError "title"
                       {| message := "can't be blank";
                          validation := "required"; extra := [] |}
                       empty_changeset)))) !! "body"
      = errors c1 !! "body" /\
    changes (putChange "body" VNull
               (putError "body"
                  {| message := "can't be blank"; validation := "required";
                     extra := [] |}
                  (putChange "title" VNull
                     (putError "title"
                        {| message := "can't be blank";
                           validation := "required"; extra := [] |}
                        empty_changeset)))) !! "body"
      = changes c1 !! "body".
Proof.
  apply (listed_fields_independent (Required [] None) ["title"; "body"]
           empty_changeset).
  - reflexivity.
  - constructor; [intros [E|[]]; discriminate E|].
    constructor; [intros []|constructor].
  - right. left. reflexivity.
  - reflexivity.
Defined.

(** *** The descriptors a validator appends *)

Section NewErrors.

Variable R : Changeset.t -> string -> Changeset.t -> Prop.
Variable P : error -> Prop.

(** A step appends at most one descriptor, which satisfies [P]. *)
Hypothesis step_new : forall cs f c1,
  R cs f c1 ->
  exists l n,
    Forall P l /\ (List.length l <= 1)%nat /\ c1 = amend f l n cs.

Lemma folds_new (fields : list string) (cs cs' : Changeset.t) :
  folds R fields cs cs' ->
  forall g, exists new,
    errorsOf g cs' = (errorsOf g cs ++ new)%list /\
    Forall P new /\
    (List.length new <= count_occ string_dec fields g)%nat.
Proof.
  intros H. induction H as [cs|f fields cs c1 cs' Hs _ IH]; intros g.
  - exists []. rewrite app_nil_r.
    split; [reflexivity|]. split; [constructor|simpl; lia].
  - destruct (step_new _ _ _ Hs) as (l & n & Pl & Ll & ->).
    destruct (IH g) as (new & E & Pn & Ln).
    simpl. destruct (string_dec f g) as [->|Hne].
    + exists (l ++ new)%list. rewrite E, errorsOf_amend, <- app_assoc.
      split; [reflexivity|]. split; [apply Forall_app; split; assumption|].
      rewrite length_app. lia.
    + exists new. rewrite E, errorsOf_amend_ne by exact Hne.
      split; [reflexivity|]. split; assumption.
Qed.

End NewErrors.

Lemma reduce_new (step : Changeset.t -> string -> result Changeset.t)
    (P : error -> Prop) :
  (forall cs f c1, step cs f = Ok c1 ->
     exists l n,
       Forall P l /\ (List.length l <= 1)%nat /\ c1 = amend f l n cs) ->
  forall fields cs cs',
    reduce step fields cs = Ok cs' ->
    forall g, exists new,
      errorsOf g cs' = (errorsOf g cs ++ new)%list /\
      Forall P new /\
      (List.length new <= count_occ string_dec fields g)%nat.
Proof.
  intros step_new fields cs cs' H.
  exact (folds_new _ P step_new _ _ _ (reduce_folds _ _ _ _ H)).
Qed.

(** The descriptor a step of [format] appended. *)
Lemma format_may_new message (p : pattern) (P : error -> Prop) :
  P (format_error message p) ->
  forall cs f c1,
    format_may message p cs f c1 ->
    exists l n,
      Forall P l /\ (List.length l <= 1)%nat /\ c1 = amend f l n cs.
Proof.
  intros HP cs f c1 [->| ->].
  - exists [], false. split; [constructor|split; [simpl; lia|reflexivity]].
  - exists [format_error message p], false.
    split; [repeat constructor; exact HP|split; [simpl; lia|reflexivity]].
Qed.

Lemma truthy_string_nonempty (m : string) :
  m <> EmptyString -> truthy_string m = true.
Proof. destruct m; [congruence|reflexivity]. Qed.

(** The descriptor a step appended and the property it has. *)
Ltac step_new tac :=
  let H := fresh "H" in
  intros ? ? ? H; step_cases H;
  first
    [ exists [], false; split; [constructor|split; [simpl; lia|reflexivity]]
    | match goal with
      | |- exists l n, _ /\ _ /\ putError _ ?e _ = _ =>
          exists [e], false;
          split; [repeat constructor; tac|split; [simpl; lia|reflexivity]]
      | |- exists l n, _ /\ _ /\ pipe (putError _ ?e) _ _ = _ =>
          exists [e], true;
          split; [repeat constructor; tac|split; [simpl; lia|reflexivity]]
      end ].

Lemma apply_tagged (b : bound) (tag : string) (cs cs' : Changeset.t) :
  tag_of b = Some tag ->
  apply b cs = Ok cs' ->
  forall g, exists new,
    errorsOf g cs' = (errorsOf g cs ++ new)%list /\
    Forall (fun e => validation e = tag) new /\
    (List.length new <= count_occ string_dec (fields_of b) g)%nat.
Proof.
  destruct b; simpl; intros Ht; try discriminate Ht; injection Ht as <-;
    try (intros H; apply format_folds in H; revert H;
         apply folds_new, format_may_new; reflexivity);
    unfold required, length, acceptance, confirmation, exclusion,
      inclusion, lessThan, greaterThan, lessThanOrEqualTo,
      greaterThanOrEqualTo, equalTo;
    apply reduce_new; step_new ltac:(reflexivity).
Qed.

(** X7: every validator but [change] appends, on each field, at most one
    descriptor per occurrence of the field in its list, and each of them
    carries the tag of the validator. *)
Theorem appended_errors_tagged
    (b : bound) (tag : string) (cs cs' : Changeset.t) (g : string) :
  tag_of b = Some tag ->
  apply b cs = Ok cs' ->
  exists new,
    errorsOf g cs' = (errorsOf g cs ++ new)%list /\
    Forall (fun e => validation e = tag) new /\
    (List.length new <= count_occ string_dec (fields_of b) g)%nat.
Proof. intros Ht H. apply (apply_tagged b tag cs cs' Ht H). Qed.

Lemma appended_errors_tagged_witness :
  exists new,
    errorsOf "age"
      (putError "age"
         {| message := "must be greater than 18";
            validation := "greater than";
            extra := [("number", AValue (VNum (num 18)))] |}
         (pending "age" (VNum (num 18))))
      = (errorsOf "age" (pending "age" (VNum (num 18))) ++ new)%list /\
    Forall (fun e => validation e = "greater than") new /\
    (List.length new
       <= count_occ string_dec
            (fields_of (GreaterThan None (num 18) ["age"])) "age")%nat.
Proof.
  apply (appended_errors_tagged (GreaterThan None (num 18) ["age"])
           "greater than" (pending "age" (VNum (num 18)))).
  - reflexivity.
  - vm_compute. reflexivity.
Defined.

Lemma apply_custom_message (b : bound) (m : string) (cs cs' : Changeset.t) :
  message_of b = Some m ->
  m <> EmptyString ->
  apply b cs = Ok cs' ->
  forall g, exists new,
    errorsOf g cs' = (errorsOf g cs ++ new)%list /\
    Forall (fun e => message e = m) new /\
    (List.length new <= count_occ string_dec (fields_of b) g)%nat.
Proof.
  destruct b; simpl; intros Hm Hne; try discriminate Hm; subst;
    pose proof (truthy_string_nonempty m Hne) as Ht;
    try (intros H; apply format_folds in H; revert H;
         apply folds_new, format_may_new; reflexivity);
    unfold required, length, acceptance, confirmation, exclusion,
      inclusion, lessThan, greaterThan, lessThanOrEqualTo,
      greaterThanOrEqualTo, equalTo;
    apply reduce_new;
    step_new ltac:(first [ congruence
                         | simpl; unfold or_else; rewrite ?Ht; reflexivity ]).
Qed.

(** X8: a custom message that is not the empty string is the message of
    every descriptor the validator appends, whichever validator it is and
    whichever of its default messages would have applied. *)
Theorem custom_message_used
    (b : bound) (m : string) (cs cs' : Changeset.t) (g : string) :
  message_of b = Some m ->
  m <> EmptyString ->
  apply b cs = Ok cs' ->
  exists new,
    errorsOf g cs' = (errorsOf g cs ++ new)%list /\
    Forall (fun e => message e = m) new.
Proof.
  intros Hm Hne H.
  destruct (apply_custom_message b m cs cs' Hm Hne H g) as (new & E & F & _).
  exists new. split; assumption.
Qed.

Lemma custom_message_used_witness :
  exists new,
    errorsOf "tags"
      (putError "tags"
         {| message := "too many";
            validation := "length";
            extra := [("min", AValue (VNum (num 2)));
                      ("max", AValue (VNum (num 5)))] |} six_tags)
      = (errorsOf "tags" six_tags ++ new)%list /\
    Forall (fun e => message e = "too many") new.
Proof.
  apply (custom_message_used (Length (Some "too many") (num 2) (num 5) ["tags"])
           "too many" six_tags).
  - reflexivity.
  - discriminate.
  - vm_compute. reflexivity.
Defined.

(** *** [required] *)

Section Required.

Implicit Types (cs : Changeset.t) (f g : string) (v : value).

(** One step of [required]. *)
Lemma required_cons f fields message cs :
  required (f :: fields) message cs =
    required fields message
      (if valid (effective f cs) then cs
       else putChange f VNull (putError f (required_error message) cs)).
Proof.
  unfold required at 1, effective. cbn [reduce].
  destruct (getChange f cs) as [[|] v]; simpl.
  - destruct (valid v); reflexivity.
  - destruct (getField f cs) as [ok' v']. simpl.
    destruct (valid v'); reflexivity.
Qed.

(** The value [required] reads for a field does not change when another
    field is flagged. *)
Lemma effective_flagged f g (e : error) cs :
  f <> g ->
  effective g (putChange f VNull (putError f e cs)) = effective g cs.
Proof.
  intros Hne. unfold effective.
  rewrite (getChange_putChange_ne f g VNull _ Hne), getChange_putError.
  reflexivity.
Qed.

(** The descriptors [required] appends are its own. *)
Lemma required_new fields message cs cs' :
  required fields message cs = Ok cs' ->
  forall g, exists new,
    errorsOf g cs' = (errorsOf g cs ++ new)%list /\
    Forall (fun e => e = required_error message) new.
Proof.
  intros H g. unfold required in H.
  eapply (reduce_new _ (fun e => e = required_error message)) with (g := g)
    in H; [|step_new ltac:(reflexivity)].
  destruct H as (new & E & F & _).
  exists new. split; assumption.
Qed.

(** What [required] does to a field of its list, by the value it reads
    for it. *)
Lemma required_on_listed fields message cs cs' f :
  In f fields ->
  required fields message cs = Ok cs' ->
  (valid (effective f cs) = true ->
   errors cs' !! f = errors cs !! f /\ changes cs' !! f = changes cs !! f) /\
  (valid (effective f cs) = false ->
   changes cs' !! f = Some VNull /\
   exists new, new <> [] /\
     errorsOf f cs' = (errorsOf f cs ++ new)%list /\
     Forall (fun e => e = required_error message) new).
Proof.
  revert cs. induction fields as [|f0 fields IH]; intros cs Hin H;
    [destruct Hin|].
  rewrite required_cons in H.
  destruct (string_dec f0 f) as [->|Hne].
  - destruct (valid (effective f cs)) eqn:Hv.
    + split; [intros _|discriminate].
      destruct (in_dec string_dec f fields) as [Hf|Hf].
      * apply (proj1 (IH cs Hf H)), Hv.
      * apply (apply_untouched (Required fields message) cs cs' f H Hf).
    + split; [discriminate|intros _].
      set (c1 := putChange f VNull (putError f (required_error message) cs))
        in *.
      split.
      * destruct (required_changes fields message c1 cs' H f) as [C|(_ & C & _)];
          [rewrite C; apply lookup_insert_eq|exact C].
      * destruct (required_new fields message c1 cs' H f) as (new & E & F).
        exists (required_error message :: new). split; [discriminate|].
        split; [|constructor; [reflexivity|exact F]].
        rewrite E. unfold c1.
        rewrite errorsOf_putChange, errorsOf_putError, <- app_assoc.
        reflexivity.
  - destruct Hin as [E|Hin]; [congruence|].
    destruct (valid (effective f0 cs)); [exact (IH cs Hin H)|].
    specialize (IH _ Hin H).
    rewrite (effective_flagged f0 f _ cs Hne) in IH.
    rewrite errorsOf_putChange, (errorsOf_putError_ne f0 f _ cs Hne) in IH.
    simpl in IH.
    rewrite !(lookup_insert_ne _ f0 f) in IH by exact Hne.
    exact IH.
Qed.

End Required.

(** X9: what [required] does to a listed field depends on the value it
    reads for it, the pending change or else the persisted value.  A
    number, a boolean, an array, an object and a string that is not
    blank leave the errors and the change of the field as they are, [0],
    [NaN], [false] and the empty array included; [undefined], [null] and
    a string made of white space only get the change set to [null] and
    at least one descriptor of [required] appended, and nothing else. *)
Theorem required_absent_values
    (fields : list string) (message : option string) (cs cs' : Changeset.t)
    (f : string) :
  In f fields ->
  required fields message cs = Ok cs' ->
  (typeof (effective f cs) = "number" \/
   typeof (effective f cs) = "boolean" \/
   is_object (effective f cs) = true \/
   (exists s, effective f cs = VStr s /\
      exists c, In c (list_ascii_of_string s) /\ is_space c = false) ->
   errors cs' !! f = errors cs !! f /\ changes cs' !! f = changes cs !! f) /\
  (effective f cs = VUndefined \/ effective f cs = VNull \/
   (exists s, effective f cs = VStr s /\
      forall c, In c (list_ascii_of_string s) -> is_space c = true) ->
   changes cs' !! f = Some VNull /\
   exists new, new <> [] /\
     errorsOf f cs' = (errorsOf f cs ++ new)%list /\
     Forall (fun e => e = required_error message) new).
Proof.
  intros Hin H.
  destruct (required_on_listed fields message cs cs' f Hin H) as [Hp Ha].
  split; intros Hk; [apply Hp|apply Ha]; clear Hp Ha.
  - destruct Hk as [Hk|[Hk|[Hk|(s & -> & c & Hc & Hs)]]];
      try (destruct (effective f cs); try discriminate Hk; reflexivity).
    unfold valid. simpl. rewrite !orb_false_r. apply negb_true_iff.
    destruct (blank s) eqn:Hb; [|reflexivity].
    unfold blank in Hb. rewrite forallb_forall in Hb.
    rewrite (Hb c Hc) in Hs. discriminate Hs.
  - destruct Hk as [->|[->|(s & -> & Hs)]]; try reflexivity.
    unfold valid. simpl. rewrite !orb_false_r. apply negb_false_iff.
    apply forallb_forall. exact Hs.
Qed.

Lemma required_absent_values_witness :
  (errors persisted_only !! "title" = errors persisted_only !! "title" /\
   changes persisted_only !! "title" = changes persisted_only !! "title") /\
  (changes (putChange "title" VNull
              (putError "title" (required_error None) blank_over_persisted))
     !! "title" = Some VNull /\
   exists new, new <> [] /\
     errorsOf "title"
       (putChange "title" VNull
          (putError "title" (required_error None) blank_over_persisted))
     = (errorsOf "title" blank_over_persisted ++ new)%list /\
     Forall (fun e => e = required_error None) new).
Proof.
  split.
  - apply (required_absent_values ["title"] None persisted_only
             persisted_only "title");
      [left; reflexivity|reflexivity|].
    right. right. right. exists "Dune". split; [reflexivity|].
    exists "D"%char. split; [left; reflexivity|reflexivity].
  - apply (required_absent_values ["title"] None blank_over_persisted
             (putChange "title" VNull
                (putError "title" (required_error None)
                   blank_over_persisted)) "title");
      [left; reflexivity|reflexivity|].
    right. right. exists " ". split; [reflexivity|].
    intros c [<-|[]]. reflexivity.
Defined.

(** X10: [required] judges the pending change of a listed field when
    there is one, and the persisted value only when there is none.  With
    a pending change, the field keeps its errors exactly when the change
    is valid, whatever the persisted value; without one, exactly when the
    persisted value is valid. *)
Theorem required_reads_change_first
    (fields : list string) (message : option string) (cs cs' : Changeset.t)
    (f : string) :
  In f fields ->
  required fields message cs = Ok cs' ->
  (forall v, getChange f cs = (true, v) ->
     (errorsOf f cs' = errorsOf f cs <-> valid v = true)) /\
  (fst (getChange f cs) = false ->
     (errorsOf f cs' = errorsOf f cs <-> valid (snd (getField f cs)) = true)).
Proof.
  intros Hin H.
  destruct (required_on_listed fields message cs cs' f Hin H) as [Hp Ha].
  assert (Heff : errorsOf f cs' = errorsOf f cs <->
                 valid (effective f cs) = true).
  { destruct (valid (effective f cs)) eqn:Hv.
    - split; [reflexivity|intros _].
      unfold errorsOf. rewrite (proj1 (Hp eq_refl)). reflexivity.
    - split; [|discriminate]. intros E. exfalso.
      destruct (Ha eq_refl) as (_ & new & Hne & E' & _).
      rewrite E in E'. apply (f_equal (@List.length error)) in E'.
      rewrite length_app in E'. destruct new; [congruence|simpl in E'; lia]. }
  unfold effective in Heff. split.
  - intros v Hc. rewrite Hc in Heff. exact Heff.
  - intros Hc. rewrite Hc in Heff. exact Heff.
Qed.

Lemma required_reads_change_first_witness :
  (errorsOf "title"
     (putChange "title" VNull
        (putError "title" (required_error None) blank_over_persisted))
   = errorsOf "title" blank_over_persisted <-> valid (VStr " ") = true) /\
  (errorsOf "title" persisted_only = errorsOf "title" persisted_only
   <-> valid (snd (getField "title" persisted_only)) = true).
Proof.
  split.
  - apply (required_reads_change_first ["title"] None blank_over_persisted
             (putChange "title" VNull
                (putError "title" (required_error None)
                   blank_over_persisted)) "title");
      [left; reflexivity|reflexivity|reflexivity].
  - apply (required_reads_change_first ["title"] None persisted_only
             persisted_only "title");
      [left; reflexivity|reflexivity|reflexivity].
Defined.

(** *** [change] *)

(** X11: on a field with a pending change, [change] appends the
    descriptors its validator returns for the value, all of them and in
    their order, after the errors the field already had; it returns the
    changeset itself when the validator returns none. *)
Theorem change_appends_in_order
    (validator : value -> list error) (f : string) (cs : Changeset.t)
    (v : value) :
  getChange f cs = (true, v) ->
  exists cs',
    change validator [f] cs = Ok cs' /\
    errorsOf f cs' = (errorsOf f cs ++ validator v)%list /\
    data cs' = data cs /\ changes cs' = changes cs /\
    (forall g, g <> f -> errors cs' !! g = errors cs !! g) /\
    (validator v = [] -> cs' = cs).
Proof.
  intros Hc. exists (putErrors f (validator v) cs).
  split; [unfold change; simpl; rewrite Hc; reflexivity|].
  split; [apply errorsOf_putErrors|].
  split; [apply data_putErrors|]. split; [apply changes_putErrors|].
  split.
  - intros g Hg. apply errors_putErrors_ne. congruence.
  - intros ->. reflexivity.
Qed.

Lemma change_appends_in_order_witness :
  exists cs',
    change (fun _ => [required_error None; required_error (Some "x")])
      ["title"] (pending "title" (VStr "Dune")) = Ok cs' /\
    errorsOf "title" cs' =
      (errorsOf "title" (pending "title" (VStr "Dune")) ++
       [required_error None; required_error (Some "x")])%list.
Proof.
  destruct (change_appends_in_order
              (fun _ => [required_error None; required_error (Some "x")])
              "title" (pending "title" (VStr "Dune")) (VStr "Dune") eq_refl)
    as (cs' & H & E & _).
  exists cs'. split; assumption.
Defined.

(** *** [acceptance] and [format] *)

(** X12: on a field with a pending change, [acceptance] returns the
    changeset as it is for the boolean [true] and for no other value: it
    flags [false] and throws on everything that is not a boolean, truthy
    or not. *)
Theorem acceptance_only_true
    (message : option string) (f : string) (cs : Changeset.t) (v : value) :
  getChange f cs = (true, v) ->
  (acceptance message [f] cs = Ok cs <-> v = VBool true) /\
  (v = VBool false ->
   acceptance message [f] cs =
     Ok (putError f
           {| message := default "must be accepted" message;
              validation := "acceptance"; extra := [] |} cs)) /\
  (typeof v <> "boolean" ->
   acceptance message [f] cs =
     Throw ("Invalid type of " ++ f ++ ". Valid types: boolean.")).
Proof.
  intros Hc. unfold acceptance. simpl. rewrite Hc. simpl.
  split; [|split].
  - split.
    + destruct v as [| |[|]| | | |]; simpl; intros H; try discriminate H;
        [reflexivity|].
      exfalso. eapply putError_changed. injection H as H. exact H.
    + intros ->. reflexivity.
  - intros ->. reflexivity.
  - destruct v; simpl; intros H; try reflexivity. congruence.
Qed.

Lemma acceptance_only_true_witness :
  acceptance None ["rules"] (pending "rules" (VBool true))
    = Ok (pending "rules" (VBool true)) /\
  acceptance None ["rules"] (pending "rules" (VNum (num 1)))
    = Throw "Invalid type of rules. Valid types: boolean.".
Proof.
  split.
  - apply (acceptance_only_true None "rules" (pending "rules" (VBool true))
             (VBool true) eq_refl). reflexivity.
  - apply (acceptance_only_true None "rules"
             (pending "rules" (VNum (num 1))) (VNum (num 1)) eq_refl).
    discriminate.
Defined.

(** X13: on a field with a pending change, [format] returns the
    changeset as it is exactly when the value is a string in which the
    expression finds a match at this call; a string without a match gets
    the error tagged [format] that carries the expression. *)
Theorem format_passes_on_match
    (message : option string) (f : string) (match_ : regexp)
    (cs : Changeset.t) (v : value) :
  getChange f cs = (true, v) ->
  (format message [f] match_ cs = Ok cs <->
   exists s, v = VStr s /\ matches match_ s = true) /\
  (forall s, v = VStr s -> matches match_ s = false ->
   format message [f] match_ cs =
     Ok (putError f
           {| message := default "has invalid format" message;
              validation := "format";
              extra := [("match", APattern (pat match_))] |} cs)).
Proof.
  intros Hc. unfold format, format_run, matches. cbn [reduce].
  unfold format_step. rewrite Hc. simpl. split.
  - split.
    + destruct v; simpl; intros H; try discriminate H.
      exists s. split; [reflexivity|].
      destruct (string_match (pat match_) (lastIndex match_) s)
        as [[|] li]; [reflexivity|].
      exfalso. cbn [bind fst] in H. eapply putError_changed.
      injection H as H. exact H.
    + intros (s & -> & Ht). simpl.
      destruct (string_match (pat match_) (lastIndex match_) s)
        as [[|] li]; [reflexivity|discriminate Ht].
  - intros s -> Ht. simpl.
    destruct (string_match (pat match_) (lastIndex match_) s)
      as [[|] li]; [discriminate Ht|reflexivity].
Qed.

Lemma format_passes_on_match_witness :
  format None ["email"] at_sign (pending "email" (VStr "a@b.com"))
    = Ok (pending "email" (VStr "a@b.com")).
Proof.
  apply (format_passes_on_match None "email" at_sign
           (pending "email" (VStr "a@b.com")) (VStr "a@b.com") eq_refl).
  exists "a@b.com". split; reflexivity.
Defined.

(** *** The numeric comparisons *)

Section Order.

Lemma compare_antisym (x y : number) :
  SFcompare y x =
    match SFcompare x y with
    | Some c => Some (CompOpp c)
    | None => None
    end.
Proof.
  destruct x as [s1|s1| |s1 m1 e1], y as [s2|s2| |s2 m2 e2]; simpl;
    try reflexivity; try (destruct s1; reflexivity);
    try (destruct s2; reflexivity);
    try (destruct s1, s2; reflexivity).
  change (Pos.compare_cont Eq m1 m2) with (Pos.compare m1 m2).
  change (Pos.compare_cont Eq m2 m1) with (Pos.compare m2 m1).
  rewrite (Z.compare_antisym e1 e2), (Pos.compare_antisym m1 m2).
  destruct s1, s2; try reflexivity;
    destruct (Z.compare e1 e2); simpl; try reflexivity;
    destruct (Pos.compare m1 m2); reflexivity.
Qed.

Lemma num_leb_split (x y : number) :
  num_leb x y = num_ltb x y || num_eqb x y.
Proof.
  unfold num_leb, num_ltb, num_eqb, SFleb, SFltb, SFeqb.
  destruct (SFcompare x y) as [[| |]|]; reflexivity.
Qed.

(** A double with a value compares with every double with a value. *)
Lemma compare_defined (x y : number) (a b : Z) :
  exact x = Some a -> exact y = Some b -> exists c, SFcompare x y = Some c.
Proof.
  destruct x as [s1|s1| |s1 m1 e1], y as [s2|s2| |s2 m2 e2]; simpl;
    intros Hx Hy; try discriminate; eauto.
Qed.

(** The equality of valid finite doubles is that of their values. *)
Lemma num_eqb_exact_iff (x y : number) (a b : Z) :
  valid_binary prec emax x = true -> valid_binary prec emax y = true ->
  exact x = Some a -> exact y = Some b ->
  num_eqb x y = true <-> a = b.
Proof.
  intros Vx Vy Hx Hy. split.
  - intros H. destruct (num_eqb_cases _ _ H) as [->|(s1 & s2 & -> & ->)].
    + congruence.
    + simpl in Hx, Hy. congruence.
  - intros <-.
    pose proof (num_ltb_exact_eq x y a Vx Vy Hx Hy) as L1.
    pose proof (num_ltb_exact_eq y x a Vy Vx Hy Hx) as L2.
    destruct (compare_defined x y a a Hx Hy) as [c Hc].
    unfold num_ltb, SFltb in L1, L2. unfold num_eqb, SFeqb.
    rewrite (compare_antisym x y), Hc in L2. rewrite Hc in L1 |- *.
    destruct c; simpl in *; congruence.
Qed.

(** The large comparison of valid finite doubles is that of their
    values. *)
Lemma num_leb_exact_iff (x y : number) (a b : Z) :
  valid_binary prec emax x = true -> valid_binary prec emax y = true ->
  exact x = Some a -> exact y = Some b ->
  num_leb x y = true <-> a <= b.
Proof.
  intros Vx Vy Hx Hy. rewrite num_leb_split, orb_true_iff.
  rewrite (num_ltb_exact_iff x y a b Vx Vy Hx Hy).
  rewrite (num_eqb_exact_iff x y a b Vx Vy Hx Hy). lia.
Qed.

Lemma num_ltb_nan_l (x : number) : num_ltb NaN x = false.
Proof. reflexivity. Qed.

Lemma num_ltb_nan_r (x : number) : num_ltb x NaN = false.
Proof. destruct x; reflexivity. Qed.

Lemma num_leb_nan_l (x : number) : num_leb NaN x = false.
Proof. reflexivity. Qed.

Lemma num_leb_nan_r (x : number) : num_leb x NaN = false.
Proof. destruct x; reflexivity. Qed.

Lemma num_eqb_nan_l (x : number) : num_eqb NaN x = false.
Proof. reflexivity. Qed.

Lemma num_eqb_nan_r (x : number) : num_eqb x NaN = false.
Proof. destruct x; reflexivity. Qed.

End Order.

Section Comparisons.

Implicit Types (cs : Changeset.t) (f : string) (v : value) (N : number).

Lemma lessThan_step f message N cs v :
  getChange f cs = (true, v) ->
  lessThan message N [f] cs =
    let* holds := less_than v (VNum N) in
    Ok (if holds then cs
        else putError f
               (comparison_error "less than" "must be less than " message N)
               cs).
Proof.
  intros Hc. unfold lessThan. simpl. rewrite Hc. simpl.
  destruct (less_than v (VNum N)) as [[|]|]; reflexivity.
Qed.

Lemma greaterThan_step f message N cs v :
  getChange f cs = (true, v) ->
  greaterThan message N [f] cs =
    let* holds := greater_than v (VNum N) in
    Ok (if holds then cs
        else putError f
               (comparison_error "greater than" "must be greater than "
                  message N) cs).
Proof.
  intros Hc. unfold greaterThan. simpl. rewrite Hc. simpl.
  destruct (greater_than v (VNum N)) as [[|]|]; reflexivity.
Qed.

Lemma lessThanOrEqualTo_step f message N cs v :
  getChange f cs = (true, v) ->
  lessThanOrEqualTo message N [f] cs =
    let* holds := less_equal v (VNum N) in
    Ok (if holds then cs
        else putError f
               (comparison_error "less than or equal to"
                  "must be less than or equal to " message N) cs).
Proof.
  intros Hc. unfold lessThanOrEqualTo. simpl. rewrite Hc. simpl.
  destruct (less_equal v (VNum N)) as [[|]|]; reflexivity.
Qed.

Lemma greaterThanOrEqualTo_step f message N cs v :
  getChange f cs = (true, v) ->
  greaterThanOrEqualTo message N [f] cs =
    let* holds := greater_equal v (VNum N) in
    Ok (if holds then cs
        else putError f
               (comparison_error "greater than or equal to"
                  "must be greater than or equal to " message N) cs).
Proof.
  intros Hc. unfold greaterThanOrEqualTo. simpl. rewrite Hc. simpl.
  destruct (greater_equal v (VNum N)) as [[|]|]; reflexivity.
Qed.

Lemma equalTo_step f message N cs v :
  getChange f cs = (true, v) ->
  equalTo message N [f] cs =
    let* holds := loose_equal v (VNum N) in
    Ok (if holds then cs
        else putError f
               (comparison_error "equal to" "must be equal to " message N)
               cs).
Proof.
  intros Hc. unfold equalTo. simpl. rewrite Hc. simpl.
  destruct (loose_equal v (VNum N)) as [[|]|]; reflexivity.
Qed.

(** A step that returns its input or appends, and when it returns it. *)
Lemma passes_iff (b : bool) f (e : error) cs :
  Ok (if b then cs else putError f e cs) = Ok cs <-> b = true.
Proof.
  destruct b; split; try reflexivity; try discriminate.
  intros H. exfalso. apply (putError_changed f e cs). congruence.
Qed.

End Comparisons.

(** X14: on a pending number, the four comparisons [lessThan],
    [lessThanOrEqualTo], [greaterThanOrEqualTo] and [equalTo] return the
    changeset as it is exactly when the value of the pending number is,
    in that order, below, at most, at least and equal to the value of the
    option [number]; they append one error otherwise. *)
Theorem comparisons_follow_the_order
    (f : string) (message : option string) (N M : number) (a b : Z)
    (cs : Changeset.t) :
  getChange f cs = (true, VNum M) ->
  valid_binary prec emax N = true -> valid_binary prec emax M = true ->
  exact N = Some a -> exact M = Some b ->
  (lessThan message N [f] cs = Ok cs <-> b < a) /\
  (lessThanOrEqualTo message N [f] cs = Ok cs <-> b <= a) /\
  (greaterThanOrEqualTo message N [f] cs = Ok cs <-> a <= b) /\
  (equalTo message N [f] cs = Ok cs <-> b = a).
Proof.
  intros Hc VN VM HN HM.
  rewrite (lessThan_step f message N cs _ Hc).
  rewrite (lessThanOrEqualTo_step f message N cs _ Hc).
  rewrite (greaterThanOrEqualTo_step f message N cs _ Hc).
  rewrite (equalTo_step f message N cs _ Hc).
  change (less_than (VNum M) (VNum N)) with (Ok (num_ltb M N)).
  change (less_equal (VNum M) (VNum N)) with (Ok (num_leb M N)).
  change (greater_equal (VNum M) (VNum N)) with (Ok (num_leb N M)).
  change (loose_equal (VNum M) (VNum N)) with (Ok (num_eqb M N)).
  cbn [bind]. rewrite !passes_iff.
  split; [apply (num_ltb_exact_iff M N b a VM VN HM HN)|].
  split; [apply (num_leb_exact_iff M N b a VM VN HM HN)|].
  split; [apply (num_leb_exact_iff N M a b VN VM HN HM)|].
  apply (num_eqb_exact_iff M N b a VM VN HM HN).
Qed.

Lemma comparisons_follow_the_order_witness :
  (lessThan None (num 18) ["age"] (pending "age" (VNum (num 19)))
     = Ok (pending "age" (VNum (num 19))) <-> 19 * unit < 18 * unit) /\
  (lessThanOrEqualTo None (num 18) ["age"] (pending "age" (VNum (num 19)))
     = Ok (pending "age" (VNum (num 19))) <-> 19 * unit <= 18 * unit) /\
  (greaterThanOrEqualTo None (num 18) ["age"] (pending "age" (VNum (num 19)))
     = Ok (pending "age" (VNum (num 19))) <-> 18 * unit <= 19 * unit) /\
  (equalTo None (num 18) ["age"] (pending "age" (VNum (num 19)))
     = Ok (pending "age" (VNum (num 19))) <-> 19 * unit = 18 * unit).
Proof.
  apply (comparisons_follow_the_order "age" None (num 18) (num 19)
           (18 * unit) (19 * unit) (pending "age" (VNum (num 19))));
    vm_compute; reflexivity.
Defined.

Section NotANumber.

Implicit Types (v : value) (N : number).

Lemma ltb_nan_r v : scalar v = true -> primitive_ltb v (VNum NaN) = false.
Proof. destruct v; try discriminate; intros _; apply num_ltb_nan_r. Qed.

Lemma ltb_nan_l v : scalar v = true -> primitive_ltb (VNum NaN) v = false.
Proof. destruct v; try discriminate; reflexivity. Qed.

Lemma leb_nan_r v : scalar v = true -> primitive_leb v (VNum NaN) = false.
Proof. destruct v; try discriminate; intros _; apply num_leb_nan_r. Qed.

Lemma leb_nan_l v : scalar v = true -> primitive_leb (VNum NaN) v = false.
Proof. destruct v; try discriminate; reflexivity. Qed.

Lemma eqb_nan_r v : scalar v = true -> primitive_eqb v (VNum NaN) = false.
Proof. destruct v; try discriminate; intros _; apply num_eqb_nan_r. Qed.

Lemma scalar_primitive v : scalar v = true -> to_primitive v = Ok v.
Proof. destruct v; try discriminate; reflexivity. Qed.

Lemma scalar_not_nullish v : scalar v = true -> is_nullish v = false.
Proof. destruct v; try discriminate; reflexivity. Qed.

End NotANumber.

(** X15: [NaN] fails every comparison.  When the option [number] is [NaN]
    and the pending value is a number, a string or a boolean, or when the
    pending value is [NaN], each of the five comparison validators
    appends its error, [equalTo] included. *)
Theorem nan_fails_every_comparison
    (f : string) (message : option string) (N : number) (cs : Changeset.t)
    (v : value) :
  getChange f cs = (true, v) ->
  (N = NaN /\ scalar v = true) \/ v = VNum NaN ->
  lessThan message N [f] cs =
    Ok (putError f
          (comparison_error "less than" "must be less than " message N) cs) /\
  greaterThan message N [f] cs =
    Ok (putError f
          (comparison_error "greater than" "must be greater than " message N)
          cs) /\
  lessThanOrEqualTo message N [f] cs =
    Ok (putError f
          (comparison_error "less than or equal to"
             "must be less than or equal to " message N) cs) /\
  greaterThanOrEqualTo message N [f] cs =
    Ok (putError f
          (comparison_error "greater than or equal to"
             "must be greater than or equal to " message N) cs) /\
  equalTo message N [f] cs =
    Ok (putError f
          (comparison_error "equal to" "must be equal to " message N) cs).
Proof.
  intros Hc Hnan.
  rewrite (lessThan_step f message N cs _ Hc).
  rewrite (greaterThan_step f message N cs _ Hc).
  rewrite (lessThanOrEqualTo_step f message N cs _ Hc).
  rewrite (greaterThanOrEqualTo_step f message N cs _ Hc).
  rewrite (equalTo_step f message N cs _ Hc).
  assert (Hs : scalar v = true)
    by (destruct Hnan as [[_ Hs]| ->]; [exact Hs|reflexivity]).
  rewrite less_than_number, greater_than_number, less_equal_number,
    greater_equal_number, (loose_equal_number v N (scalar_not_nullish v Hs)),
    (scalar_primitive v Hs).
  cbn [bind].
  destruct Hnan as [[-> _]| ->].
  - rewrite (ltb_nan_r v Hs), (ltb_nan_l v Hs), (leb_nan_r v Hs),
      (leb_nan_l v Hs), (eqb_nan_r v Hs). repeat split.
  - change (primitive_ltb (VNum NaN) (VNum N)) with (num_ltb NaN N).
    change (primitive_ltb (VNum N) (VNum NaN)) with (num_ltb N NaN).
    change (primitive_leb (VNum NaN) (VNum N)) with (num_leb NaN N).
    change (primitive_leb (VNum N) (VNum NaN)) with (num_leb N NaN).
    change (primitive_eqb (VNum NaN) (VNum N)) with (num_eqb NaN N).
    rewrite num_ltb_nan_l, num_ltb_nan_r, num_leb_nan_l, num_leb_nan_r,
      num_eqb_nan_l. repeat split.
Qed.

Lemma nan_fails_every_comparison_witness :
  equalTo None NaN ["age"] (pending "age" (VNum NaN)) =
    Ok (putError "age"
          (comparison_error "equal to" "must be equal to " None NaN)
          (pending "age" (VNum NaN))).
Proof.
  apply (nan_fails_every_comparison "age" None NaN
           (pending "age" (VNum NaN)) (VNum NaN) eq_refl).
  right. reflexivity.
Defined.

(** *** What is thrown *)

Section FirstMisuse.

Context {A : Type}.
Variable view : A -> Changeset.t.
Variable well_typed : value -> bool.
Variable step : A -> string -> result A.
Variable text : string -> string.

Hypothesis step_throws_text : forall a f,
  wrong_type well_typed f (view a) = true -> step a f = Throw (text f).
Hypothesis step_returns : forall a f,
  wrong_type well_typed f (view a) = false ->
  exists a1, step a f = Ok a1 /\ changes (view a1) = changes (view a).

(** The reducer throws at the first field of the wrong type. *)
Lemma reduce_first_throw (l1 l2 : list string) (f : string) (a : A) :
  (forall g, In g l1 -> wrong_type well_typed g (view a) = false) ->
  wrong_type well_typed f (view a) = true ->
  reduce step (l1 ++ f :: l2) a = Throw (text f).
Proof.
  revert a. induction l1 as [|g0 l1 IH]; intros a Hall Hw; simpl.
  - rewrite (step_throws_text a f Hw). reflexivity.
  - destruct (step_returns a g0 (Hall g0 (or_introl eq_refl)))
      as (a1 & -> & Hc).
    apply IH.
    + intros g Hg. rewrite (wrong_type_changes well_typed g _ _ Hc).
      apply Hall. right. exact Hg.
    + rewrite (wrong_type_changes well_typed f _ _ Hc). exact Hw.
Qed.

End FirstMisuse.

(** A type-checking step on a pending change of the wrong type. *)
Ltac misuse_text :=
  let H := fresh "H" in
  let c := fresh "c" in
  let g := fresh "g" in
  let v := fresh "v" in
  intros c g H; unfold wrong_type in H; cbv beta in H |- *; simpl;
  destruct (getChange g c) as [[|] v]; simpl in H |- *;
  [ destruct v; simpl in H |- *; try discriminate H; reflexivity
  | discriminate H ].

Ltac misuse_format_text :=
  let H := fresh "H" in
  let c := fresh "c" in
  let li := fresh "li" in
  let g := fresh "g" in
  let v := fresh "v" in
  intros [c li] g H; unfold wrong_type, format_type in H;
  unfold format_step; simpl in H |- *;
  destruct (getChange g c) as [[|] v]; simpl in H |- *;
  [ destruct v; simpl in H |- *; try discriminate H; reflexivity
  | discriminate H ].

(** X16: the string thrown by [length], [acceptance] and [format] names
    the first field of the list, in list order, whose pending change has
    the wrong type; the fields after it are not looked at. *)
Theorem thrown_text_names_first_field
    (l1 l2 : list string) (f : string) (cs : Changeset.t)
    (customMessage message : option string) (min max : number)
    (match_ : regexp) :
  ((forall g, In g l1 -> wrong_type length_type g cs = false) ->
   wrong_type length_type f cs = true ->
   length customMessage min max (l1 ++ f :: l2) cs =
     Throw ("Invalid type of " ++ quote ++ f ++ quote
            ++ ". Valid types: string, array.")) /\
  ((forall g, In g l1 -> wrong_type acceptance_type g cs = false) ->
   wrong_type acceptance_type f cs = true ->
   acceptance message (l1 ++ f :: l2) cs =
     Throw ("Invalid type of " ++ f ++ ". Valid types: boolean.")) /\
  ((forall g, In g l1 -> wrong_type format_type g cs = false) ->
   wrong_type format_type f cs = true ->
   format message (l1 ++ f :: l2) match_ cs =
     Throw ("Invalid type of " ++ f ++ ". Valid types: string.")).
Proof.
  split; [|split].
  - unfold length.
    apply (reduce_first_throw (fun c => c) length_type _
             (fun f => "Invalid type of " ++ quote ++ f ++ quote
                       ++ ". Valid types: string, array."));
      unfold length_type; [misuse_text|misuse_step].
  - unfold acceptance.
    apply (reduce_first_throw (fun c => c) acceptance_type _
             (fun f => "Invalid type of " ++ f ++ ". Valid types: boolean."));
      unfold acceptance_type; [misuse_text|misuse_step].
  - intros Hall Hw. unfold format, format_run.
    rewrite (reduce_first_throw fst format_type
               (format_step (default "has invalid format" message)
                  (pat match_))
               (fun f => "Invalid type of " ++ f ++ ". Valid types: string."));
      [reflexivity|misuse_format_text|misuse_format_step|exact Hall|exact Hw].
Qed.

(** Two pending changes of the wrong type for [length]. *)
Lemma thrown_text_names_first_field_witness :
  length None (num 2) (num 5) ([] ++ "title" :: ["tags"])
    {| data := ∅;
       changes := {[ "title" := VNum (num 7); "tags" := VBool true ]};
       errors := ∅ |}
  = Throw ("Invalid type of " ++ quote ++ "title" ++ quote
           ++ ". Valid types: string, array.").
Proof.
  apply (thrown_text_names_first_field [] ["tags"] "title" _
           None None (num 2) (num 5) at_sign).
  - intros g [].
  - vm_compute. reflexivity.
Defined.

(** *** [exclusion] against [inclusion] *)

(** X17: given the same list of values, [exclusion] and [inclusion] are
    complementary on a field with a pending change: one of them returns
    the changeset as it is and the other appends its error. *)
Theorem exclusion_inclusion_complementary
    (m m' : option string) (f : string) (values : list value)
    (cs : Changeset.t) (v : value) :
  getChange f cs = (true, v) ->
  (exclusion m [f] values cs = Ok cs /\
   inclusion m' [f] values cs =
     Ok (putError f
           {| message := default "is invalid" m'; validation := "inclusion";
              extra := [("include", AValues values)] |} cs)) \/
  (inclusion m' [f] values cs = Ok cs /\
   exclusion m [f] values cs =
     Ok (putError f
           {| message := default "is reserved" m; validation := "exclusion";
              extra := [("reserved", AValues values)] |} cs)).
Proof.
  intros Hc. unfold exclusion, inclusion. simpl. rewrite Hc. simpl.
  destruct (existsb (fun x => strict_equal x v) values); simpl;
    [right|left]; split; reflexivity.
Qed.

Lemma exclusion_inclusion_complementary_witness :
  (exclusion None ["role"] [VStr "admin"] (pending "role" (VStr "guest"))
     = Ok (pending "role" (VStr "guest")) /\
   inclusion None ["role"] [VStr "admin"] (pending "role" (VStr "guest")) =
     Ok (putError "role"
           {| message := default "is invalid" None; validation := "inclusion";
              extra := [("include", AValues [VStr "admin"])] |}
           (pending "role" (VStr "guest")))) \/
  (inclusion None ["role"] [VStr "admin"] (pending "role" (VStr "guest"))
     = Ok (pending "role" (VStr "guest")) /\
   exclusion None ["role"] [VStr "admin"] (pending "role" (VStr "guest")) =
     Ok (putError "role"
           {| message := default "is reserved" None; validation := "exclusion";
              extra := [("reserved", AValues [VStr "admin"])] |}
           (pending "role" (VStr "guest")))).
Proof.
  apply (exclusion_inclusion_complementary None None "role" [VStr "admin"]
           (pending "role" (VStr "guest")) (VStr "guest")).
  reflexivity.
Defined.

(** *** The empty string as a message *)

(** X18: what an empty string passed as [message] does depends on how the
    validator takes the option.  [length] and the five comparisons take it
    with [||], so they behave as if no message had been given; the
    validators that declare a default parameter keep it, and every
    descriptor they append has the empty message. *)
Theorem empty_custom_message
    (b : bound) (cs cs' : Changeset.t) (g : string) :
  message_of b = Some EmptyString ->
  (message_or_default b = true ->
   apply b cs = apply (without_message b) cs) /\
  (message_or_default b = false ->
   apply b cs = Ok cs' ->
   exists new,
     errorsOf g cs' = (errorsOf g cs ++ new)%list /\
     Forall (fun e => message e = EmptyString) new).
Proof.
  intros Hm. split.
  - destruct b; simpl in Hm |- *; intros Hd; try discriminate Hd; subst;
      reflexivity.
  - intros Hd H.
    assert (exists new,
      errorsOf g cs' = (errorsOf g cs ++ new)%list /\
      Forall (fun e => message e = EmptyString) new /\
      (List.length new <= count_occ string_dec (fields_of b) g)%nat)
      as (new & E & F & _).
    { revert H g. destruct b; simpl in Hm, Hd |- *; try discriminate Hd;
        try discriminate Hm; subst;
        try (intros H; apply format_folds in H; revert H;
             apply folds_new, format_may_new; reflexivity);
        unfold required, acceptance, confirmation, exclusion, inclusion;
        apply reduce_new; step_new ltac:(reflexivity). }
    exists new. split; assumption.
Qed.

Lemma empty_custom_message_witness :
  exists new,
    errorsOf "rules"
      (putError "rules"
         {| message := EmptyString; validation := "acceptance";
            extra := [] |} (pending "rules" (VBool false)))
    = (errorsOf "rules" (pending "rules" (VBool false)) ++ new)%list /\
    Forall (fun e => message e = EmptyString) new.
Proof.
  apply (empty_custom_message (Acceptance (Some EmptyString) ["rules"])
           (pending "rules" (VBool false))).
  - reflexivity.
  - reflexivity.
  - vm_compute. reflexivity.
Defined.

(** *** [length] between two different bounds *)

(** X19: when [min] and [max] are different numbers, [length] returns the
    changeset as it is exactly when the length of the pending string or
    array lies between them, both bounds included; otherwise it appends
    its error.  With [min] above [max] it therefore flags every value. *)
Theorem length_passes_within_bounds
    (f : string) (customMessage : option string) (min max : number)
    (a b n : Z) (cs : Changeset.t) (v : value) :
  getChange f cs = (true, v) ->
  length_type v = true ->
  valid_binary prec emax min = true ->
  valid_binary prec emax max = true ->
  valid_binary prec emax (length_of v) = true ->
  exact min = Some a -> exact max = Some b ->
  exact (length_of v) = Some n ->
  a <> b ->
  length customMessage min max [f] cs = Ok cs <-> a <= n <= b.
Proof.
  intros Hc Ht Vmin Vmax Vl Emin Emax El Hne.
  rewrite (length_found f customMessage min max cs v Hc Ht).
  unfold select_message.
  pose proof (num_eqb_exact_iff min max a b Vmin Vmax Emin Emax) as Heq.
  pose proof (num_ltb_exact_iff (length_of v) min n a Vl Vmin El Emin) as Hlo.
  pose proof (num_ltb_exact_iff max (length_of v) b n Vmax Vl Emax El) as Hhi.
  destruct (num_eqb min max); [exfalso; apply Hne, Heq; reflexivity|].
  simpl.
  destruct (num_ltb max (length_of v)), (num_ltb (length_of v) min);
    destruct (typeof v =? "string")%string; simpl;
    try (split; [intros H; exfalso;
                 match type of H with
                 | Ok ?x = Ok cs =>
                     assert (x = cs) as H' by congruence;
                     apply (putError_changed _ _ _ H')
                 end
                |intros H; exfalso;
                 pose proof (proj1 Hlo); pose proof (proj1 Hhi); lia]);
    (split; [intros _|reflexivity]);
    destruct (Z.lt_ge_cases n a) as [L|L];
    try (apply (proj2 Hlo) in L; discriminate L);
    destruct (Z.lt_ge_cases b n) as [U|U];
    try (apply (proj2 Hhi) in U; discriminate U); lia.
Qed.

Lemma length_passes_within_bounds_witness :
  length None (num 2) (num 5) ["tags"] six_tags = Ok six_tags
  <-> 2 * unit <= 6 * unit <= 5 * unit.
Proof.
  apply (length_passes_within_bounds "tags" None (num 2) (num 5)
           (2 * unit) (5 * unit) (6 * unit) six_tags
           (snd (getChange "tags" six_tags)));
    try (vm_compute; reflexivity).
  vm_compute. discriminate.
Defined.
